(** * Verification model of hashnode-lockfile-server (main.go)

    Go strings are modelled as lists of Unicode code points ([list Z]);
    byte slices (net.IP, net.IPMask) as lists of bytes ([list Z]), the nil
    slice being [[]]. *)

From Stdlib Require Import ZArith List Bool String Ascii Lia.
From stdpp Require Import base gmap.
Import ListNotations.
Open Scope Z_scope.
Set Warnings "-register-all".

(** A Go string as the sequence of its code points; a byte that is not
    part of a well-formed UTF-8 sequence (such as the 0xff of a request path
    /lockfiles/%ff) is written as a value that is not a Unicode scalar
    value. *)
Abbreviation str := (list Z).

(** ASCII text as a Go string (used to write concrete inputs). *)
Fixpoint s2z (s : string) : str :=
  match s with
  | EmptyString => []
  | String a r => Z.of_nat (nat_of_ascii a) :: s2z r
  end.

Definition zlist_eqb (l1 l2 : list Z) : bool := bool_decide (l1 = l2).

(** Result of a Go computation that may panic (a nil pointer dereference);
    gin's Recovery middleware (installed by gin.Default) turns a panic in a
    handler into an HTTP 500 response. *)
Inductive outcome (A : Type) : Type :=
| Ret (a : A)
| Panic.
Arguments Ret {A} a.
Arguments Panic {A}.

(** ** Go's net package: IP, IPMask, IPNet and IPNet.Contains *)
Module Net.

Abbreviation IP := (list Z).

Record IPNet := mkIPNet { net_IP : IP; net_Mask : list Z }.

Definition v4InV6Prefix : list Z := [0;0;0;0;0;0;0;0;0;0;255;255].

(** func (ip IP) To4() IP *)
Definition To4 (ip : IP) : IP :=
  if (length ip =? 4)%nat then ip
  else if ((length ip =? 16)%nat && zlist_eqb (firstn 12 ip) v4InV6Prefix)%bool
  then skipn 12 ip else [].

(** func networkNumberAndMask(n *IPNet) (ip IP, m IPMask) *)
Definition networkNumberAndMask (n : IPNet) : IP * list Z :=
  let ipo :=
    match To4 (net_IP n) with
    | [] => if (length (net_IP n) =? 16)%nat then Some (net_IP n) else None
    | ip4 => Some ip4
    end in
  match ipo with
  | None => ([], [])
  | Some ip =>
      let m := net_Mask n in
      if (length m =? 4)%nat then
        (if (length ip =? 4)%nat then (ip, m) else ([], []))
      else if (length m =? 16)%nat then
        (if (length ip =? 4)%nat then (ip, skipn 12 m) else (ip, m))
      else ([], [])
  end.

(** The loop [for i := 0; i < l; i++ { if nn[i]&m[i] != ip[i]&m[i] ... }]. *)
Fixpoint masked_eq (nn m ip : list Z) : bool :=
  match nn, m, ip with
  | a :: nn', b :: m', c :: ip' =>
      (Z.eqb (Z.land a b) (Z.land c b) && masked_eq nn' m' ip')%bool
  | _, _, _ => true
  end.

(** func (n *IPNet) Contains(ip IP) bool *)
Definition Contains (n : IPNet) (ip : IP) : bool :=
  let '(nn, m) := networkNumberAndMask n in
  let ip' := match To4 ip with [] => ip | x => x end in
  ((length ip' =? length nn)%nat && masked_eq nn m ip')%bool.

(** The shape of every IPNet returned by net.ParseCIDR: a 4-byte network
    with a 4-byte mask, or a 16-byte network with a 16-byte mask. *)
Definition wf_ipnet (n : IPNet) : Prop :=
  (length (net_IP n) = 4 \/ length (net_IP n) = 16)%nat
  /\ length (net_Mask n) = length (net_IP n).

(** The parsing functions of the net package the server calls: ParseIP
    returns nil ([[]]) on failure, ParseCIDR returns a nil *IPNet
    ([None]) on failure, and otherwise an IPNet of the shape above. *)
Class NetLib := {
  ParseIP : str -> IP;
  ParseCIDR : str -> option IPNet;
  ParseCIDR_wf : forall s n, ParseCIDR s = Some n -> wf_ipnet n
}.

(** *** A concrete instance: net.ParseIP / net.ParseCIDR on dotted-decimal
    IPv4 text (netip.parseIPv4 of Go 1.21). IPv6 text, which Go also
    accepts, is left unparsed by this instance; it is only used to evaluate
    the model at IPv4 inputs. *)

Definition is_digit (c : Z) : bool := (48 <=? c) && (c <=? 57).

Fixpoint split_on (sep : Z) (s : str) : list str :=
  match s with
  | [] => [[]]
  | c :: r =>
      if Z.eqb c sep then [] :: split_on sep r
      else match split_on sep r with
           | f :: fs => (c :: f) :: fs
           | [] => [[c]]
           end
  end.

Fixpoint digits_val (acc : Z) (s : str) : Z :=
  match s with
  | [] => acc
  | c :: r => digits_val (acc * 10 + (c - 48)) r
  end.

(** One IPv4 field: at least one digit, no leading zero, value <= 255. *)
Definition parse_octet (f : str) : option Z :=
  match f with
  | [] => None
  | c :: r =>
      if negb (forallb is_digit f) then None
      else if (Z.eqb c 48 && negb (Nat.eqb (length r) 0))%bool then None
      else let v := digits_val 0 f in if v <=? 255 then Some v else None
  end.

Definition parseIPv4 (s : str) : option (list Z) :=
  match split_on 46 s with
  | [a; b; c; d] =>
      match parse_octet a, parse_octet b, parse_octet c, parse_octet d with
      | Some a', Some b', Some c', Some d' => Some [a'; b'; c'; d']
      | _, _, _, _ => None
      end
  | _ => None
  end.

Definition ParseIP_v4 (s : str) : IP :=
  match parseIPv4 s with
  | Some q => v4InV6Prefix ++ q
  | None => []
  end.

(** func CIDRMask(ones, bits int) IPMask, for bits = 32 *)
Definition mask_byte (ones : Z) (i : Z) : Z :=
  let k := ones - 8 * i in
  if 8 <=? k then 255 else if k <=? 0 then 0 else 256 - 2 ^ (8 - k).

Definition CIDRMask4 (ones : Z) : list Z :=
  [mask_byte ones 0; mask_byte ones 1; mask_byte ones 2; mask_byte ones 3].

Fixpoint split_first (sep : Z) (s : str) : option (str * str) :=
  match s with
  | [] => None
  | c :: r =>
      if Z.eqb c sep then Some ([], r)
      else match split_first sep r with
           | Some (a, b) => Some (c :: a, b)
           | None => None
           end
  end.

Definition ParseCIDR_v4 (s : str) : option IPNet :=
  match split_first 47 s with
  | None => None
  | Some (addr, mask) =>
      match parseIPv4 addr with
      | None => None
      | Some q =>
          if (negb (Nat.eqb (length mask) 0) && forallb is_digit mask)%bool then
            let n := digits_val 0 mask in
            if n <=? 32 then
              let m := CIDRMask4 n in
              Some (mkIPNet (map (fun '(a, b) => Z.land a b) (combine q m)) m)
            else None
          else None
      end
  end.

Lemma parseIPv4_length s q : parseIPv4 s = Some q -> length q = 4%nat.
Proof.
  unfold parseIPv4. destruct (split_on 46 s) as [|a [|b [|c [|d [|]]]]]; try discriminate.
  destruct (parse_octet a), (parse_octet b), (parse_octet c), (parse_octet d);
    intros H; inversion H; reflexivity.
Qed.

Lemma ParseCIDR_v4_wf s n : ParseCIDR_v4 s = Some n -> wf_ipnet n.
Proof.
  unfold ParseCIDR_v4. destruct (split_first 47 s) as [[addr mask]|]; [|discriminate].
  destruct (parseIPv4 addr) as [q|] eqn:Hq; [|discriminate].
  apply parseIPv4_length in Hq.
  destruct (_ && _)%bool; [|discriminate].
  destruct (_ <=? 32); [|discriminate].
  intros H; inversion H; subst; clear H. unfold wf_ipnet; simpl.
  destruct q as [|a [|b [|c [|d [|]]]]]; simpl in Hq; try discriminate.
  simpl. split; [left|]; reflexivity.
Qed.

#[export] Instance GoNetV4 : NetLib :=
  { ParseIP := ParseIP_v4; ParseCIDR := ParseCIDR_v4;
    ParseCIDR_wf := ParseCIDR_v4_wf }.

End Net.
Import Net.

(** ** Admission filter *)
Section Admission.
Context `{NL : NetLib}.

(** func isAllowedIP(ip string, allowedIPs []string) bool.
    The loop calls [ipNet.Contains] on the result of net.ParseCIDR without
    checking its error: on a malformed range [ipNet] is nil and Contains
    dereferences it. *)
Fixpoint allowed_loop (clientIP : IP) (allowedIPs : list str) : outcome bool :=
  match allowedIPs with
  | [] => Ret false
  | allowedIP :: rest =>
      match ParseCIDR allowedIP with
      | None => Panic
      | Some ipNet =>
          if Contains ipNet clientIP then Ret true else allowed_loop clientIP rest
      end
  end.

Definition isAllowedIP (ip : str) (allowedIPs : list str) : outcome bool :=
  allowed_loop (ParseIP ip) allowedIPs.

End Admission.

Lemma wf_networkNumber_nonnil n :
  wf_ipnet n -> fst (networkNumberAndMask n) <> [].
Proof.
  destruct n as [ip m]. unfold wf_ipnet; simpl. intros [[Hl|Hl] Hm]; rewrite Hl in Hm.
  - do 4 (destruct ip as [|? ip]; try discriminate). destruct ip; [|discriminate].
    do 4 (destruct m as [|? m]; try discriminate). destruct m; [|discriminate].
    unfold networkNumberAndMask, To4; simpl. discriminate.
  - do 16 (destruct ip as [|? ip]; try discriminate). destruct ip; [|discriminate].
    do 16 (destruct m as [|? m]; try discriminate). destruct m; [|discriminate].
    unfold networkNumberAndMask, To4; simpl.
    destruct (zlist_eqb _ _); simpl; discriminate.
Qed.

Lemma Contains_nil n : wf_ipnet n -> Contains n [] = false.
Proof.
  intros Hwf. apply wf_networkNumber_nonnil in Hwf.
  unfold Contains. destruct (networkNumberAndMask n) as [nn m]; simpl in *.
  destruct nn; [congruence|]. reflexivity.
Qed.

(** ** Allowlist refresher and the route table *)

(** Result of fetchGithubActionsIPs: on error it still returns its
    [decodedResp], which is the zero GithubMetaAPIResponse (Actions = nil)
    after a transport error or a non-200 status, and whatever was decoded
    before a decoding error. *)
Inductive fetch_result :=
| FetchOk (actions : list str)
| FetchErr (decodedResp : list str).

Definition fetched_actions (r : fetch_result) : list str :=
  match r with FetchOk a | FetchErr a => a end.

Definition fetch_failed (r : fetch_result) : bool :=
  match r with FetchErr _ => true | FetchOk _ => false end.

(** The in-memory state of the process. *)
Record Server := mkServer {
  githubActionsIPs : list str;  (** the global githubActionsIPs.Actions *)
  put_filter_ips : list str;    (** the [allowedIPs] captured by
                                    IPFilterMiddleware(githubActionsIPs.Actions)
                                    when the PUT route is registered *)
  log : list str                (** lines written by log.Println *)
}.

Definition fetch_failed_msg : str := s2z "failed to fetch github actions ips".

(** main, lines 106-118: the initial fetch (panic on error), then the PUT
    route is registered with the value of githubActionsIPs.Actions. *)
Definition startup (r : fetch_result) : option Server :=
  match r with
  | FetchErr _ => None
  | FetchOk a => Some (mkServer a a [])
  end.

(** One iteration of the refresh goroutine (lines 123-129), under the lock:
    [githubActionsIPs, err = fetchGithubActionsIPs()], then log on error. *)
Definition refresh_tick (s : Server) (r : fetch_result) : Server :=
  mkServer (fetched_actions r) (put_filter_ips s)
    (if fetch_failed r then log s ++ [fetch_failed_msg] else log s).

Definition refresh_ticks (s : Server) (rs : list fetch_result) : Server :=
  fold_left refresh_tick rs s.

(** The admission decision of the PUT route: the middleware closure calls
    isAllowedIP(c.ClientIP(), allowedIPs) on its captured slice. *)
Definition put_decision `{NetLib} (s : Server) (clientIP : str) : outcome bool :=
  isAllowedIP clientIP (put_filter_ips s).

Lemma refresh_ticks_filter s rs : put_filter_ips (refresh_ticks s rs) = put_filter_ips s.
Proof.
  unfold refresh_ticks. revert s; induction rs as [|r rs IH]; intros s; simpl; auto.
  rewrite IH. reflexivity.
Qed.

(** ** Interleavings of the refresh goroutine and request goroutines

    githubActionsIPsMutex is held by the refresh goroutine around the fetch
    and the assignment, and by the PUT middleware from its Lock until the
    deferred Unlock after the rest of the handler chain has run. *)
Module Sched.

Inductive tid := Refresher | Reader (i : nat).

(** Program points of the refresh goroutine. *)
Inductive rpc := RSleep | RCrit | RAssigned.

(** Program points of a request goroutine in IPFilterMiddleware. *)
Inductive qpc := QIdle | QCrit | QDecided.

Record World := mkWorld {
  w_srv : Server;
  w_lock : option tid;
  w_rpc : rpc;
  w_qpc : list qpc;
  w_seen : list (list str)   (** the range lists the admission checks used *)
}.

Inductive step : World -> World -> Prop :=
| step_r_lock srv q seen :
    step (mkWorld srv None RSleep q seen) (mkWorld srv (Some Refresher) RCrit q seen)
| step_r_fetch srv l q seen r :
    step (mkWorld srv l RCrit q seen) (mkWorld (refresh_tick srv r) l RAssigned q seen)
| step_r_unlock srv l q seen :
    step (mkWorld srv l RAssigned q seen) (mkWorld srv None RSleep q seen)
| step_q_lock srv rp q seen i :
    q !! i = Some QIdle ->
    step (mkWorld srv None rp q seen) (mkWorld srv (Some (Reader i)) rp (<[i := QCrit]> q) seen)
| step_q_check srv l rp q seen i :
    q !! i = Some QCrit ->
    step (mkWorld srv l rp q seen)
         (mkWorld srv l rp (<[i := QDecided]> q) (seen ++ [put_filter_ips srv]))
| step_q_unlock srv l rp q seen i :
    q !! i = Some QDecided ->
    step (mkWorld srv l rp q seen) (mkWorld srv None rp (<[i := QIdle]> q) seen).

Inductive reachable (w0 : World) : World -> Prop :=
| reach_init : reachable w0 w0
| reach_step w w' : reachable w0 w -> step w w' -> reachable w0 w'.

(** The process right after main has started the refresh goroutine, with
    [n] request goroutines. *)
Definition init_world (s0 : Server) (n : nat) : World :=
  mkWorld s0 None RSleep (replicate n QIdle) [].

Definition in_crit_r (p : rpc) : bool := match p with RSleep => false | _ => true end.
Definition in_crit_q (p : qpc) : bool := match p with QIdle => false | _ => true end.

(** The invariant: the lock owner is exactly the goroutine in its critical
    section, and every admission check used the captured slice. *)
Definition inv (s0 : Server) (w : World) : Prop :=
  (forall i p, w_qpc w !! i = Some p -> in_crit_q p = true -> w_lock w = Some (Reader i))
  /\ (in_crit_r (w_rpc w) = true -> w_lock w = Some Refresher)
  /\ put_filter_ips (w_srv w) = put_filter_ips s0
  /\ Forall (fun l => l = put_filter_ips s0) (w_seen w).

End Sched.

(** ** Data model *)

(** type LockfileContent struct { ID, Path, Url, Hash string } *)
Record LockfileContent := mkLockfileContent {
  ID : str; Path : str; Url : str; Hash : str
}.

Definition zero_content : LockfileContent := mkLockfileContent [] [] [] [].

(** type LockfileContentArray []LockfileContent; [None] is the nil slice. *)
Abbreviation LockfileContentArray := (option (list LockfileContent)).

(** type PutLockfileRequest struct, as decoded from the request body. *)
Record PutLockfileRequest := mkPutLockfileRequest {
  req_RepositoryName : str;
  req_Posts : LockfileContentArray
}.

(** type Lockfile struct *)
Record Lockfile := mkLockfile {
  lf_ID : Z;                 (** uuid *)
  lf_RepositoryName : str;
  lf_RepositoryID : str;
  lf_Content : LockfileContentArray;
  lf_CreatedAt : Z;
  lf_UpdatedAt : Z
}.

(** ** encoding/json (Go 1.21) for LockfileContentArray: Value and Scan *)
Module Json.

(** A Unicode scalar value; any other code point stands for an invalid
    UTF-8 sequence. *)
Definition is_scalar (c : Z) : bool :=
  ((0 <=? c) && (c <=? 1114111) && negb ((55296 <=? c) && (c <=? 57343)))%bool.

Definition hexdig (n : Z) : Z := if n <? 10 then 48 + n else 87 + n.

(** appendString with escapeHTML = true: one source character. *)
Definition escape_char (c : Z) : list Z :=
  if c =? 34 then [92; 34]
  else if c =? 92 then [92; 92]
  else if c =? 10 then [92; 110]
  else if c =? 13 then [92; 114]
  else if c =? 9 then [92; 116]
  else if ((0 <=? c) && (c <? 32) || (c =? 60) || (c =? 62) || (c =? 38))%bool
  then [92; 117; 48; 48; hexdig (c / 16); hexdig (c mod 16)]
  else if ((c =? 8232) || (c =? 8233))%bool then [92; 117; 50; 48; 50; hexdig (c mod 16)]
  else if negb (is_scalar c) then [92; 117; 102; 102; 102; 100]
  else [c].

Definition encode_string (s : str) : str := 34 :: flat_map escape_char s ++ [34].

(** [lead] followed by the quoted member name and a colon: [{"id":] for
    lead = '{', [,"path":] for lead = ','. *)
Definition member_prefix (lead : Z) (name : string) : str :=
  lead :: 34 :: s2z name ++ [34; 58].

(** A struct value: fields in declaration order, with their json tags. *)
Definition encode_content_elem (e : LockfileContent) : str :=
  member_prefix 123 "id" ++ encode_string (ID e) ++
  member_prefix 44 "path" ++ encode_string (Path e) ++
  member_prefix 44 "url" ++ encode_string (Url e) ++
  member_prefix 44 "hash" ++ encode_string (Hash e) ++ [125].

(** func (lcArray LockfileContentArray) Value(): json.Marshal(lcArray) *)
Definition Value (a : LockfileContentArray) : str :=
  match a with
  | None => s2z "null"
  | Some [] => [91; 93]
  | Some (e :: es) =>
      91 :: encode_content_elem e ++ flat_map (fun x => 44 :: encode_content_elem x) es ++ [93]
  end.

(** *** Decoding (the scanner and decodeState of encoding/json) *)

Inductive json :=
| JNull
| JBool (b : bool)
| JNum (lexeme : str)
| JStr (s : str)
| JArr (xs : list json)
| JObj (members : list (str * json)).

Definition is_ws (c : Z) : bool := ((c =? 32) || (c =? 9) || (c =? 10) || (c =? 13))%bool.

Fixpoint skip_ws (s : str) : str :=
  match s with
  | c :: r => if is_ws c then skip_ws r else s
  | [] => []
  end.

Definition hexval (c : Z) : option Z :=
  if ((48 <=? c) && (c <=? 57))%bool then Some (c - 48)
  else if ((97 <=? c) && (c <=? 102))%bool then Some (c - 87)
  else if ((65 <=? c) && (c <=? 70))%bool then Some (c - 55)
  else None.

(** getu4 on the four hex digits following [\u]. *)
Definition getu4 (a b c d : Z) : option Z :=
  match hexval a, hexval b, hexval c, hexval d with
  | Some x, Some y, Some z, Some w => Some (((x * 16 + y) * 16 + z) * 16 + w)
  | _, _, _, _ => None
  end.

Definition is_surrogate (u : Z) : bool := ((55296 <=? u) && (u <=? 57343))%bool.

(** utf16.DecodeRune: a valid pair, or None for unicode.ReplacementChar. *)
Definition decode_pair (r1 r2 : Z) : option Z :=
  if ((55296 <=? r1) && (r1 <? 56320) && (56320 <=? r2) && (r2 <? 57344))%bool
  then Some ((r1 - 55296) * 1024 + (r2 - 56320) + 65536)
  else None.

Definition simple_escape (e : Z) : option Z :=
  if e =? 34 then Some 34 else if e =? 92 then Some 92 else if e =? 47 then Some 47
  else if e =? 98 then Some 8 else if e =? 102 then Some 12
  else if e =? 110 then Some 10 else if e =? 114 then Some 13
  else if e =? 116 then Some 9 else None.

Definition cons_fst (c : Z) (o : option (str * str)) : option (str * str) :=
  match o with Some (d, rest) => Some (c :: d, rest) | None => None end.

(** The characters of a string literal after its opening quote, up to and
    including the closing quote (scanner checks and unquote together). *)
Fixpoint parse_str_body (s : str) : option (str * str) :=
  match s with
  | [] => None
  | c :: r =>
      if c =? 34 then Some ([], r)
      else if c =? 92 then
        match r with
        | [] => None
        | e :: r' =>
            if e =? 117 then
              match r' with
              | h1 :: h2 :: h3 :: h4 :: r'' =>
                  match getu4 h1 h2 h3 h4 with
                  | None => None
                  | Some u =>
                      if is_surrogate u then
                        match r'' with
                        | b1 :: b2 :: k1 :: k2 :: k3 :: k4 :: r3 =>
                            match (if ((b1 =? 92) && (b2 =? 117))%bool
                                   then getu4 k1 k2 k3 k4 else None) with
                            | Some u2 =>
                                match decode_pair u u2 with
                                | Some d => cons_fst d (parse_str_body r3)
                                | None => cons_fst 65533 (parse_str_body r'')
                                end
                            | None => cons_fst 65533 (parse_str_body r'')
                            end
                        | _ => cons_fst 65533 (parse_str_body r'')
                        end
                      else cons_fst u (parse_str_body r'')
                  end
              | _ => None
              end
            else match simple_escape e with
                 | Some d => cons_fst d (parse_str_body r')
                 | None => None
                 end
        end
      else if c <? 32 then None
      else cons_fst (if is_scalar c then c else 65533) (parse_str_body r)
  end.

Fixpoint span_digits (s : str) : str * str :=
  match s with
  | c :: r =>
      if ((48 <=? c) && (c <=? 57))%bool
      then let '(d, rest) := span_digits r in (c :: d, rest)
      else ([], s)
  | [] => ([], [])
  end.

(** At least one digit. *)
Definition digits1 (s : str) : option (str * str) :=
  match span_digits s with
  | ([], _) => None
  | (d, rest) => Some (d, rest)
  end.

(** The lexeme of a JSON number: -?(0|[1-9][0-9]* )(.[0-9]+)?([eE][+-]?[0-9]+)? *)
Definition lex_number (s : str) : option (str * str) :=
  let '(sign, s1) := match s with
                     | c :: r => if c =? 45 then ([45], r) else ([], s)
                     | [] => ([], [])
                     end in
  let int_part :=
    match s1 with
    | c :: r => if c =? 48 then Some ([48], r)
                else if ((49 <=? c) && (c <=? 57))%bool then digits1 s1 else None
    | [] => None
    end in
  match int_part with
  | None => None
  | Some (ip, s2) =>
      let frac :=
        match s2 with
        | c :: r => if c =? 46 then
                      match digits1 r with
                      | Some (d, r') => Some (46 :: d, r')
                      | None => None
                      end
                    else Some ([], s2)
        | [] => Some ([], [])
        end in
      match frac with
      | None => None
      | Some (fp, s3) =>
          let ex :=
            match s3 with
            | c :: r =>
                if ((c =? 101) || (c =? 69))%bool then
                  let '(sg, r1) := match r with
                                   | d :: r2 => if ((d =? 43) || (d =? 45))%bool
                                                then ([d], r2) else ([], r)
                                   | [] => ([], [])
                                   end in
                  match digits1 r1 with
                  | Some (d, r') => Some (c :: sg ++ d, r')
                  | None => None
                  end
                else Some ([], s3)
            | [] => Some ([], [])
            end in
          match ex with
          | None => None
          | Some (ep, s4) => Some (sign ++ ip ++ fp ++ ep, s4)
          end
      end
  end.

Fixpoint strip_prefix (p s : str) : option str :=
  match p, s with
  | [], _ => Some s
  | a :: p', b :: s' => if a =? b then strip_prefix p' s' else None
  | _ :: _, [] => None
  end.

(** A JSON value (after optional white space), with a fuel bound on the
    number of nested calls; the entry point passes more fuel than the text
    has characters. *)
Fixpoint parse_value (fuel : nat) (s : str) : option (json * str) :=
  match fuel with
  | O => None
  | S f =>
      match skip_ws s with
      | [] => None
      | c :: r =>
          if c =? 123 then
            match parse_obj f r with
            | Some (ms, rest) => Some (JObj ms, rest)
            | None => None
            end
          else if c =? 91 then
            match parse_arr f r with
            | Some (xs, rest) => Some (JArr xs, rest)
            | None => None
            end
          else if c =? 34 then
            match parse_str_body r with
            | Some (x, rest) => Some (JStr x, rest)
            | None => None
            end
          else match strip_prefix (s2z "null") (c :: r) with
          | Some rest => Some (JNull, rest)
          | None =>
          match strip_prefix (s2z "true") (c :: r) with
          | Some rest => Some (JBool true, rest)
          | None =>
          match strip_prefix (s2z "false") (c :: r) with
          | Some rest => Some (JBool false, rest)
          | None =>
              match lex_number (c :: r) with
              | Some (lexeme, rest) => Some (JNum lexeme, rest)
              | None => None
              end
          end end end
      end
  end
(** After '[': the elements and the closing ']'. *)
with parse_arr (fuel : nat) (s : str) : option (list json * str) :=
  match fuel with
  | O => None
  | S f =>
      match skip_ws s with
      | c :: r =>
          if c =? 93 then Some ([], r)
          else match parse_value f s with
               | Some (v, rest) =>
                   match parse_arr_more f rest with
                   | Some (vs, rest') => Some (v :: vs, rest')
                   | None => None
                   end
               | None => None
               end
      | [] => None
      end
  end
(** After an element: ']' or ',' and the next element. *)
with parse_arr_more (fuel : nat) (s : str) : option (list json * str) :=
  match fuel with
  | O => None
  | S f =>
      match skip_ws s with
      | c :: r =>
          if c =? 93 then Some ([], r)
          else if c =? 44 then
            match parse_value f r with
            | Some (v, rest) =>
                match parse_arr_more f rest with
                | Some (vs, rest') => Some (v :: vs, rest')
                | None => None
                end
            | None => None
            end
          else None
      | [] => None
      end
  end
(** After '{': the members and the closing '}'. *)
with parse_obj (fuel : nat) (s : str) : option (list (str * json) * str) :=
  match fuel with
  | O => None
  | S f =>
      match skip_ws s with
      | c :: r =>
          if c =? 125 then Some ([], r)
          else match parse_member f s with
               | Some (m, rest) =>
                   match parse_obj_more f rest with
                   | Some (ms, rest') => Some (m :: ms, rest')
                   | None => None
                   end
               | None => None
               end
      | [] => None
      end
  end
(** After a member: '}' or ',' and the next member. *)
with parse_obj_more (fuel : nat) (s : str) : option (list (str * json) * str) :=
  match fuel with
  | O => None
  | S f =>
      match skip_ws s with
      | c :: r =>
          if c =? 125 then Some ([], r)
          else if c =? 44 then
            match parse_member f r with
            | Some (m, rest) =>
                match parse_obj_more f rest with
                | Some (ms, rest') => Some (m :: ms, rest')
                | None => None
                end
            | None => None
            end
          else None
      | [] => None
      end
  end
(** A member: a string key, ':' and a value. *)
with parse_member (fuel : nat) (s : str) : option ((str * json) * str) :=
  match fuel with
  | O => None
  | S f =>
      match skip_ws s with
      | c :: r =>
          if c =? 34 then
            match parse_str_body r with
            | Some (k, rest) =>
                match skip_ws rest with
                | d :: rest' =>
                    if d =? 58 then
                      match parse_value f rest' with
                      | Some (v, rest'') => Some ((k, v), rest'')
                      | None => None
                      end
                    else None
                | [] => None
                end
            | None => None
            end
          else None
      | [] => None
      end
  end.

(** Matching a member name to a struct field: the exact name, or the name
    under case folding (ASCII letters, with U+017F folding to 'S' and the
    Kelvin sign U+212A to 'K'). *)
Definition fold_key_char (c : Z) : Z :=
  if ((97 <=? c) && (c <=? 122))%bool then c - 32
  else if c =? 383 then 83
  else if c =? 8490 then 75
  else c.

Definition key_matches (key : str) (name : string) : bool :=
  (zlist_eqb key (s2z name)
   || zlist_eqb (map fold_key_char key) (map fold_key_char (s2z name)))%bool.

(** decodeState.object for one member into a LockfileContent: a string is
    stored, null leaves the field unchanged, any other value is an
    UnmarshalTypeError (Unmarshal then fails); unknown names are skipped. *)
Definition set_member (e : LockfileContent) (m : str * json) : option LockfileContent :=
  let '(k, v) := m in
  let store (upd : str -> LockfileContent) :=
    match v with
    | JStr x => Some (upd x)
    | JNull => Some e
    | _ => None
    end in
  if key_matches k "id" then store (fun x => mkLockfileContent x (Path e) (Url e) (Hash e))
  else if key_matches k "path" then store (fun x => mkLockfileContent (ID e) x (Url e) (Hash e))
  else if key_matches k "url" then store (fun x => mkLockfileContent (ID e) (Path e) x (Hash e))
  else if key_matches k "hash" then store (fun x => mkLockfileContent (ID e) (Path e) (Url e) x)
  else Some e.

Fixpoint set_members (e : LockfileContent) (ms : list (str * json)) : option LockfileContent :=
  match ms with
  | [] => Some e
  | m :: ms' => match set_member e m with
                | Some e' => set_members e' ms'
                | None => None
                end
  end.

(** One array element into a fresh (zero) LockfileContent. *)
Definition content_of_json (v : json) : option LockfileContent :=
  match v with
  | JNull => Some zero_content
  | JObj ms => set_members zero_content ms
  | _ => None
  end.

Fixpoint contents_of_json (vs : list json) : option (list LockfileContent) :=
  match vs with
  | [] => Some []
  | v :: vs' => match content_of_json v, contents_of_json vs' with
                | Some e, Some es => Some (e :: es)
                | _, _ => None
                end
  end.

(** json.Unmarshal into a nil *LockfileContentArray. *)
Definition array_of_json (v : json) : option LockfileContentArray :=
  match v with
  | JNull => Some None
  | JArr vs => match contents_of_json vs with
               | Some es => Some (Some es)
               | None => None
               end
  | _ => None
  end.

Definition Unmarshal (text : str) : option LockfileContentArray :=
  match parse_value (S (length text)) text with
  | Some (v, rest) =>
      match skip_ws rest with
      | [] => array_of_json v
      | _ => None
      end
  | None => None
  end.

(** func (lcArray *LockfileContentArray) Scan(value interface{}) error, for
    the text of the JSON column (lib/pq returns it as []byte); [None] is
    the error. *)
Definition Scan (value : str) : option LockfileContentArray := Unmarshal value.


(** The strings a decoded request can hold: decoding replaces invalid
    UTF-8 by U+FFFD, so every character is a Unicode scalar value. *)
Definition scalar_str (s : str) : Prop := Forall (fun c => is_scalar c = true) s.

Definition scalar_content (e : LockfileContent) : Prop :=
  scalar_str (ID e) /\ scalar_str (Path e) /\ scalar_str (Url e) /\ scalar_str (Hash e).

(** The JSON value of an encoded LockfileContent. *)
Definition content_json (e : LockfileContent) : json :=
  JObj [(s2z "id", JStr (ID e)); (s2z "path", JStr (Path e));
        (s2z "url", JStr (Url e)); (s2z "hash", JStr (Hash e))].

(** What encoding then decoding does to one character: appendString
    writes an invalid code point as \ufffd, which decodes to U+FFFD. *)
Definition scrub (c : Z) : Z := if is_scalar c then c else 65533.

Definition scrub_content (e : LockfileContent) : LockfileContent :=
  mkLockfileContent (map scrub (ID e)) (map scrub (Path e)) (map scrub (Url e))
    (map scrub (Hash e)).

End Json.

(** ** Request validation: gin's default validator (go-playground/validator
    v10) on the `binding` tags *)
Module Validate.

Inductive tag := Required | Dive.

(** A value as the validator's reflection sees it: strings, slices (nil as
    [None]) and structs whose fields carry their tags. *)
Inductive gval :=
| GString (s : str)
| GSlice (xs : option (list gval))
| GStruct (fields : list (list tag * gval)).

(** hasValue, the check of the [required] tag: a string must not be the
    zero value, a slice must not be nil. *)
Definition has_value (v : gval) : bool :=
  match v with
  | GString s => negb (Nat.eqb (length s) 0)
  | GSlice xs => match xs with Some _ => true | None => false end
  | GStruct _ => true
  end.

(** traverseField: a struct field is validated as a nested struct; any
    other field runs its tags in order, and only a [dive] tag descends into
    the elements of a slice. *)
Fixpoint traverse (tags : list tag) (v : gval) {struct v} : bool :=
  match v with
  | GStruct fs =>
      (fix fields (fs : list (list tag * gval)) : bool :=
         match fs with
         | [] => true
         | (t, x) :: fs' => (traverse t x && fields fs')%bool
         end) fs
  | GString _ =>
      forallb (fun t => match t with Required => has_value v | Dive => true end) tags
  | GSlice xs =>
      (fix run (ts : list tag) : bool :=
         match ts with
         | [] => true
         | Required :: ts' => (has_value v && run ts')%bool
         | Dive :: ts' =>
             match xs with
             | None => true
             | Some l => (fix elems (l : list gval) : bool :=
                            match l with
                            | [] => true
                            | x :: l' => (traverse ts' x && elems l')%bool
                            end) l
             end
         end) tags
  end.

(** LockfileContent with its tags: every field [binding:"required"]. *)
Definition content_gval (e : LockfileContent) : gval :=
  GStruct [([Required], GString (ID e)); ([Required], GString (Path e));
           ([Required], GString (Url e)); ([Required], GString (Hash e))].

(** PutLockfileRequest with its tags: both fields [binding:"required"]. *)
Definition request_gval (r : PutLockfileRequest) : gval :=
  GStruct [([Required], GString (req_RepositoryName r));
           ([Required], GSlice (option_map (map content_gval) (req_Posts r)))].

Definition ValidateStruct (r : PutLockfileRequest) : bool := traverse [] (request_gval r).

End Validate.

(** ** The lockfiles table *)

(** A row of the lockfiles table; [content] holds the JSON text written by
    LockfileContentArray.Value. *)
Record Row := mkRow {
  row_id : Z;
  row_repository_id : str;
  row_repository_name : str;
  row_content : str;
  row_created_at : Z;
  row_updated_at : Z
}.

(** The table, keyed by its UNIQUE column repository_id; [None] when the
    table does not exist. *)
Abbreviation DB := (option (gmap str Row)).

(** A text value PostgreSQL (server encoding UTF8) accepts as a parameter:
    no NUL character and no invalid UTF-8, otherwise the statement fails
    with an encoding error. *)
Definition pg_text_ok (s : str) : bool :=
  forallb (fun c => negb (c =? 0) && Json.is_scalar c)%bool s.

(** Assignment of a text value to a VARCHAR(255) column: a longer value is
    an error unless the excess characters are all spaces, in which case it
    is truncated to 255 characters. *)
Definition varchar255 (s : str) : option str :=
  if negb (pg_text_ok s) then None
  else if (length s <=? 255)%nat then Some s
  else if forallb (fun c => c =? 32) (skipn 255 s) then Some (firstn 255 s)
  else None.

(** The NamedExec statement of PutLockfileHandler:
      INSERT INTO lockfiles (repository_id, repository_name, content, updated_at)
      VALUES (...) ON CONFLICT (repository_id) DO UPDATE
      SET content = :content, repository_name = :repository_name,
          updated_at = CURRENT_TIMESTAMP
    [now] is CURRENT_TIMESTAMP of the statement's transaction and [fresh]
    the value of uuid_generate_v4() for a new row; [None] is an error. *)
Definition upsert (db : DB) (repositoryId repositoryName content : str)
    (now fresh : Z) : option DB :=
  match db with
  | None => None
  | Some rows =>
      match varchar255 repositoryId, varchar255 repositoryName with
      | Some rid, Some rname =>
          match rows !! rid with
          | Some r =>
              Some (Some (<[rid := mkRow (row_id r) (row_repository_id r)
                             rname content (row_created_at r) now]> rows))
          | None =>
              Some (Some (<[rid := mkRow fresh rid rname content now now]> rows))
          end
      | _, _ => None
      end
  end.

(** [SELECT * FROM lockfiles WHERE repository_id = $1] through db.Get. *)
Inductive select_result :=
| SelRow (r : Row)
| SelErrNoRows
| SelErr.

Definition select_lockfile (db : DB) (repositoryId : str) : select_result :=
  match db with
  | None => SelErr
  | Some rows =>
      if pg_text_ok repositoryId then
        match rows !! repositoryId with
        | Some r => SelRow r
        | None => SelErrNoRows
        end
      else SelErr
  end.

(** ** Handlers *)

Inductive get_response :=
| GetData (lf : Lockfile)       (** 200 {"data": lockfile} *)
| GetNoData                     (** 200 {"data": nil} *)
| GetServerError.               (** 500 {"error": ...} *)

(** func GetLockfileHandler: db.Get scans the row, the content column
    through LockfileContentArray.Scan. *)
Definition GetLockfileHandler (db : DB) (repositoryId : str) : get_response :=
  match select_lockfile db repositoryId with
  | SelErrNoRows => GetNoData
  | SelErr => GetServerError
  | SelRow r =>
      match Json.Scan (row_content r) with
      | None => GetServerError
      | Some c =>
          GetData (mkLockfile (row_id r) (row_repository_name r) (row_repository_id r)
                     c (row_created_at r) (row_updated_at r))
      end
  end.

Inductive put_response :=
| PutBadRequest                 (** 400 *)
| PutServerError                (** 500 *)
| PutOK.                        (** 200 "lockfile updated successfully" *)

(** func PutLockfileHandler. [body] is the request body as decoded by
    ShouldBindJSON ([None] for a body that is not JSON of this shape),
    which then runs the validator. *)
Definition PutLockfileHandler (db : DB) (repositoryId : str)
    (body : option PutLockfileRequest) (now fresh : Z) : put_response * DB :=
  match body with
  | None => (PutBadRequest, db)
  | Some request =>
      if negb (Validate.ValidateStruct request) then (PutBadRequest, db)
      else match upsert db repositoryId (req_RepositoryName request)
                   (Json.Value (req_Posts request)) now fresh with
           | None => (PutServerError, db)
           | Some db' => (PutOK, db')
           end
  end.

(** func initTables, with GIN_MODE = [gin_mode]. *)
Definition initTables (db : DB) (gin_mode : str) : DB :=
  match db with
  | None => Some ∅
  | Some rows =>
      let tableEmpty := bool_decide (rows = ∅) in
      if (tableEmpty || (negb tableEmpty && negb (zlist_eqb gin_mode (s2z "release"))))%bool
      then Some ∅
      else Some rows
  end.

(** The operations this process performs on the table. *)
Inductive db_op :=
| OpInit (gin_mode : str)
| OpPut (repositoryId : str) (body : option PutLockfileRequest) (now fresh : Z)
| OpGet (repositoryId : str).

Definition run_op (db : DB) (op : db_op) : DB :=
  match op with
  | OpInit m => initTables db m
  | OpPut id body now fresh => snd (PutLockfileHandler db id body now fresh)
  | OpGet _ => db
  end.

Definition run_ops (db : DB) (ops : list db_op) : DB := fold_left run_op ops db.

(** Whether [op] is a PUT whose repository_id, as assigned to its
    VARCHAR(255) column, is [id]. *)
Definition op_writes (id : str) (op : db_op) : bool :=
  match op with
  | OpPut id' _ _ _ =>
      match varchar255 id' with Some k => zlist_eqb k id | None => false end
  | _ => false
  end.

(** The table's shape: each row is stored under its repository_id, a value
    of its VARCHAR(255) column. *)
Definition table_wf (rows : gmap str Row) : Prop :=
  map_Forall (fun k r => row_repository_id r = k /\ varchar255 k = Some k) rows.

Definition db_wf (db : DB) : Prop :=
  match db with None => True | Some rows => table_wf rows end.

Definition doc_exists (db : DB) (id : str) : Prop :=
  match db with None => False | Some rows => is_Some (rows !! id) end.

(** ** Helper lemmas *)

Lemma put_decision_refresh_ticks `{NetLib} s rs ip : put_decision (refresh_ticks s rs) ip = put_decision s ip.
Proof. unfold put_decision. rewrite refresh_ticks_filter. reflexivity. Qed.

Definition range_contains `{NetLib} (a : IP) (r : str) : bool :=
  match ParseCIDR r with Some n => Contains n a | None => false end.

Lemma allowed_loop_parsed `{NetLib} a ranges :
  Forall (fun r => ParseCIDR r <> None) ranges ->
  allowed_loop a ranges = Ret (existsb (range_contains a) ranges).
Proof.
  induction 1 as [|r rs Hr Hrs IH]; simpl; [reflexivity|].
  unfold range_contains at 1.
  destruct (ParseCIDR r) as [n|]; [|congruence].
  destruct (Contains n a); simpl; auto.
Qed.

Lemma range_contains_nil `{NetLib} r : range_contains [] r = false.
Proof.
  unfold range_contains. destruct (ParseCIDR r) as [n|] eqn:E; [|reflexivity].
  apply Contains_nil, (ParseCIDR_wf r n E).
Qed.

Lemma existsb_range_contains_nil `{NetLib} ranges :
  existsb (range_contains []) ranges = false.
Proof.
  induction ranges as [|r rs IH]; simpl; [reflexivity|].
  rewrite range_contains_nil, IH. reflexivity.
Qed.

Lemma existsb_range_contains_iff `{NetLib} a ranges :
  existsb (range_contains a) ranges = true <->
  exists r n, In r ranges /\ ParseCIDR r = Some n /\ Contains n a = true.
Proof.
  rewrite existsb_exists. unfold range_contains. split.
  - intros [r [Hin Hc]]. destruct (ParseCIDR r) as [n|] eqn:E; [|discriminate].
    exists r, n. auto.
  - intros [r [n [Hin [E Hc]]]]. exists r. rewrite E. auto.
Qed.

Lemma ValidateStruct_spec (r : PutLockfileRequest) :
  Validate.ValidateStruct r =
  (negb (Nat.eqb (length (req_RepositoryName r)) 0)
   && match req_Posts r with Some _ => true | None => false end)%bool.
Proof.
  destruct r as [name [posts|]]; unfold Validate.ValidateStruct; simpl;
    destruct (Nat.eqb (length name) 0); reflexivity.
Qed.

Lemma forallb_firstn {A} (f : A -> bool) n l :
  forallb f l = true -> forallb f (firstn n l) = true.
Proof.
  intros H. rewrite <- (firstn_skipn n l), forallb_app in H.
  apply andb_prop in H. apply H.
Qed.

Lemma varchar255_idem s t : varchar255 s = Some t -> varchar255 t = Some t.
Proof.
  unfold varchar255. destruct (pg_text_ok s) eqn:Ht; simpl; [|discriminate].
  destruct (length s <=? 255)%nat eqn:Hl.
  - intros [= <-]. rewrite Ht, Hl. reflexivity.
  - destruct (forallb _ (skipn 255 s)); [|discriminate]. intros [= <-].
    rewrite (forallb_firstn _ _ _ Ht). simpl.
    apply Nat.leb_gt in Hl. rewrite length_firstn.
    replace (Init.Nat.min 255 (length s) <=? 255)%nat with true; [reflexivity|].
    symmetry. apply Nat.leb_le. lia.
Qed.

Lemma upsert_wf db id name content now fresh db' :
  db_wf db -> upsert db id name content now fresh = Some db' -> db_wf db'.
Proof.
  destruct db as [rows|]; simpl; [|discriminate]. intros Hwf.
  destruct (varchar255 id) as [rid|] eqn:Hid; [|discriminate].
  destruct (varchar255 name) as [rname|]; [|discriminate].
  pose proof (varchar255_idem _ _ Hid) as Hrid.
  destruct (rows !! rid) as [r|] eqn:Hr; intros [= <-]; simpl;
    apply map_Forall_insert_2; auto; simpl.
  split; [|exact Hrid]. apply (Hwf rid r Hr).
Qed.

Lemma run_op_wf db op : db_wf db -> db_wf (run_op db op).
Proof.
  intros Hwf. destruct op as [m|id body now fresh|id]; simpl.
  - destruct db as [rows|]; simpl.
    + destruct (_ || _)%bool; simpl; [apply map_Forall_empty|exact Hwf].
    + apply map_Forall_empty.
  - destruct body as [req|]; simpl; [|exact Hwf].
    destruct (Validate.ValidateStruct req); simpl; [|exact Hwf].
    destruct (upsert db id _ _ now fresh) as [db'|] eqn:E; simpl; [|exact Hwf].
    exact (upsert_wf _ _ _ _ _ _ _ Hwf E).
  - exact Hwf.
Qed.

Lemma run_ops_wf db ops : db_wf db -> db_wf (run_ops db ops).
Proof.
  unfold run_ops. revert db. induction ops as [|op ops IH]; intros db Hwf; simpl; auto.
  apply IH, run_op_wf, Hwf.
Qed.

Lemma run_op_keeps_absent db op id :
  op_writes id op = false ->
  (exists rows, db = Some rows /\ rows !! id = None) ->
  exists rows, run_op db op = Some rows /\ rows !! id = None.
Proof.
  intros Hw [rows [-> Hn]]. destruct op as [m|id' body now fresh|id']; simpl in *.
  - destruct (_ || _)%bool; eexists; split; eauto; apply lookup_empty.
  - destruct body as [req|]; simpl; [|eauto].
    destruct (Validate.ValidateStruct req); simpl; [|eauto].
    destruct (varchar255 id') as [rid|] eqn:Hid; simpl; [|eauto].
    destruct (varchar255 (req_RepositoryName req)); simpl; [|eauto].
    assert (rid <> id).
    { intros ->. unfold zlist_eqb in Hw. rewrite bool_decide_eq_false in Hw. auto. }
    destruct (rows !! rid); eexists; split; eauto; rewrite lookup_insert_ne; auto.
  - eauto.
Qed.

Lemma run_op_keeps_doc db op id :
  doc_exists db id ->
  (forall m, op = OpInit m -> m = s2z "release") ->
  doc_exists (run_op db op) id.
Proof.
  intros Hd Hop. destruct db as [rows|]; [|contradiction]. simpl in Hd.
  destruct op as [m|id' body now fresh|id']; simpl.
  - rewrite (Hop m eq_refl). simpl.
    assert (Hne : bool_decide (rows = ∅) = false).
    { apply bool_decide_eq_false. intros ->. rewrite lookup_empty in Hd.
      destruct Hd as [? Hd]; discriminate. }
    rewrite Hne. simpl. exact Hd.
  - destruct body as [req|]; simpl; [|exact Hd].
    destruct (Validate.ValidateStruct req); simpl; [|exact Hd].
    destruct (varchar255 id') as [rid|]; simpl; [|exact Hd].
    destruct (varchar255 (req_RepositoryName req)); simpl; [|exact Hd].
    destruct (decide (rid = id)) as [->|Hne].
    + destruct (rows !! id); simpl; rewrite lookup_insert_eq; eauto.
    + destruct (rows !! rid); simpl; rewrite lookup_insert_ne by auto; exact Hd.
  - exact Hd.
Qed.

(** ** Round trip of the content column codec *)
Module JsonRoundTrip.
Import Json.

#[local] Arguments getu4 : simpl never.

Lemma hexval_hexdig n : 0 <= n < 16 -> hexval (hexdig n) = Some n.
Proof.
  intros Hn. unfold hexdig, hexval.
  destruct (Z.ltb_spec n 10).
  - replace ((48 <=? 48 + n) && (48 + n <=? 57))%bool with true
      by (symmetry; apply andb_true_iff; split; apply Z.leb_le; lia).
    f_equal. lia.
  - replace ((48 <=? 87 + n) && (87 + n <=? 57))%bool with false
      by (symmetry; apply andb_false_iff; right; apply Z.leb_gt; lia).
    replace ((97 <=? 87 + n) && (87 + n <=? 102))%bool with true
      by (symmetry; apply andb_true_iff; split; apply Z.leb_le; lia).
    f_equal. lia.
Qed.

Lemma getu4_00 c : 0 <= c < 256 -> getu4 48 48 (hexdig (c / 16)) (hexdig (c mod 16)) = Some c.
Proof.
  intros Hc. pose proof (Z.div_mod c 16) as Hd. pose proof (Z.mod_pos_bound c 16) as Hm.
  assert (Hq : 0 <= c / 16 < 16) by (split; [apply Z.div_pos|apply Z.div_lt_upper_bound]; lia).
  unfold getu4. rewrite (hexval_hexdig (c / 16)), (hexval_hexdig (c mod 16)) by lia.
  simpl. f_equal. lia.
Qed.

Lemma escape_char_parse c rest :
  is_scalar c = true ->
  parse_str_body (escape_char c ++ rest) = cons_fst c (parse_str_body rest).
Proof.
  intros Hs. unfold escape_char.
  destruct (Z.eqb_spec c 34) as [->|H34]; [reflexivity|].
  destruct (Z.eqb_spec c 92) as [->|H92]; [reflexivity|].
  destruct (Z.eqb_spec c 10) as [->|H10]; [reflexivity|].
  destruct (Z.eqb_spec c 13) as [->|H13]; [reflexivity|].
  destruct (Z.eqb_spec c 9) as [->|H9]; [reflexivity|].
  destruct ((0 <=? c) && (c <? 32) || (c =? 60) || (c =? 62) || (c =? 38))%bool eqn:Ectl.
  - assert (Hc : 0 <= c < 256).
    { repeat rewrite orb_true_iff in Ectl. repeat rewrite andb_true_iff in Ectl.
      rewrite Z.leb_le, Z.ltb_lt, !Z.eqb_eq in Ectl. lia. }
    simpl. rewrite (getu4_00 c Hc).
    assert (Hsur : is_surrogate c = false).
    { unfold is_surrogate. apply andb_false_iff. left. apply Z.leb_gt. lia. }
    rewrite Hsur. reflexivity.
  - destruct ((c =? 8232) || (c =? 8233))%bool eqn:E2.
    + apply orb_true_iff in E2. destruct E2 as [E2|E2]; apply Z.eqb_eq in E2; subst c;
        reflexivity.
    + rewrite Hs. simpl.
      assert (Hge : 32 <= c).
      { unfold is_scalar in Hs. apply andb_true_iff in Hs. destruct Hs as [Hs _].
        apply andb_true_iff in Hs. destruct Hs as [Hs _]. apply Z.leb_le in Hs.
        destruct (Z.ltb_spec c 32); [|lia].
        assert (Hb : (0 <=? c) = true) by (apply Z.leb_le; lia).
        rewrite Hb in Ectl. simpl in Ectl. discriminate Ectl. }
      rewrite (proj2 (Z.eqb_neq c 34) H34), (proj2 (Z.eqb_neq c 92) H92).
      replace (c <? 32) with false by (symmetry; apply Z.ltb_ge; lia).
      rewrite Hs. reflexivity.
Qed.

Lemma str_body_roundtrip s rest :
  Forall (fun c => is_scalar c = true) s ->
  parse_str_body (flat_map escape_char s ++ 34 :: rest) = Some (s, rest).
Proof.
  induction 1 as [|c s Hc Hs IH]; [reflexivity|].
  simpl. rewrite <- app_assoc, (escape_char_parse c _ Hc), IH. reflexivity.
Qed.

Lemma parse_value_elem f e rest :
  scalar_content e ->
  parse_value (8 + f) (encode_content_elem e ++ rest) = Some (content_json e, rest).
Proof.
  intros [H1 [H2 [H3 H4]]]. unfold encode_content_elem, encode_string, member_prefix.
  replace (s2z "id") with [105; 100] by reflexivity.
  replace (s2z "path") with [112; 97; 116; 104] by reflexivity.
  replace (s2z "url") with [117; 114; 108] by reflexivity.
  replace (s2z "hash") with [104; 97; 115; 104] by reflexivity.
  simpl. rewrite <- !app_assoc. simpl.
  rewrite (str_body_roundtrip (ID e)) by exact H1. simpl.
  rewrite <- ?app_assoc. simpl.
  rewrite (str_body_roundtrip (Path e)) by exact H2. simpl.
  rewrite <- ?app_assoc. simpl.
  rewrite (str_body_roundtrip (Url e)) by exact H3. simpl.
  rewrite <- ?app_assoc. simpl.
  rewrite (str_body_roundtrip (Hash e)) by exact H4. simpl.
  reflexivity.
Qed.

#[local] Arguments encode_content_elem : simpl never.

Lemma parse_value_open_bracket n r :
  parse_value (S n) (91 :: r) =
  match parse_arr n r with Some (xs, rest) => Some (JArr xs, rest) | None => None end.
Proof. reflexivity. Qed.

Lemma parse_arr_elem g e r :
  parse_arr (S g) (encode_content_elem e ++ r) =
  match parse_value g (encode_content_elem e ++ r) with
  | Some (v, rest) =>
      match parse_arr_more g rest with Some (vs, rest') => Some (v :: vs, rest') | None => None end
  | None => None
  end.
Proof. reflexivity. Qed.

Lemma parse_arr_more_elem g e r :
  parse_arr_more (S g) (44 :: encode_content_elem e ++ r) =
  match parse_value g (encode_content_elem e ++ r) with
  | Some (v, rest) =>
      match parse_arr_more g rest with Some (vs, rest') => Some (v :: vs, rest') | None => None end
  | None => None
  end.
Proof. reflexivity. Qed.

Lemma flat_map_elems_cons x l t :
  flat_map (fun x => 44 :: encode_content_elem x) (x :: l) ++ t
  = 44 :: encode_content_elem x ++ (flat_map (fun x => 44 :: encode_content_elem x) l ++ t).
Proof. cbn [flat_map]. rewrite <- app_assoc. reflexivity. Qed.

Lemma parse_arr_more_elems f l rest :
  Forall scalar_content l ->
  parse_arr_more (length l + 9 + f)
    (flat_map (fun x => 44 :: encode_content_elem x) l ++ 93 :: rest)
  = Some (map content_json l, rest).
Proof.
  induction 1 as [|x l Hx Hl IH]; [reflexivity|].
  change (length (x :: l) + 9 + f)%nat with (S (length l + 9 + f)).
  rewrite flat_map_elems_cons, parse_arr_more_elem.
  replace (length l + 9 + f)%nat with (8 + S (length l + f))%nat at 1 by lia.
  rewrite (parse_value_elem _ x _ Hx).
  replace (8 + S (length l + f))%nat with (length l + 9 + f)%nat by lia.
  rewrite IH. reflexivity.
Qed.

Lemma length_encode_content_elem e : (9 <= length (encode_content_elem e))%nat.
Proof.
  unfold encode_content_elem, encode_string, member_prefix. rewrite !length_app. simpl. lia.
Qed.

Lemma length_flat_map_elems (l : list LockfileContent) :
  Nat.le (length l) (length (flat_map (fun x => 44 :: encode_content_elem x) l)).
Proof. induction l as [|x l IH]; [simpl; lia|]. simpl. rewrite length_app. lia. Qed.

Lemma content_of_content_json e : content_of_json (content_json e) = Some e.
Proof. destruct e. reflexivity. Qed.

Lemma contents_of_map_json l : contents_of_json (map content_json l) = Some l.
Proof. induction l as [|x l IH]; [reflexivity|]. cbn [map contents_of_json]. rewrite content_of_content_json, IH. reflexivity. Qed.

Lemma Unmarshal_Value l :
  Forall scalar_content l -> Unmarshal (Value (Some l)) = Some (Some l).
Proof.
  intros Hl. destruct l as [|e es]; [reflexivity|].
  inversion Hl as [|? ? He Hes]; subst.
  assert (Hlen : (length es + 10 <= length (Value (Some (e :: es))))%nat).
  { simpl. rewrite !length_app. simpl.
    pose proof (length_encode_content_elem e). pose proof (length_flat_map_elems es). lia. }
  destruct (Nat.le_exists_sub _ _ Hlen) as [f [Hf _]].
  unfold Unmarshal. rewrite Hf.
  replace (f + (length es + 10))%nat with (S (length es + 9 + f)) by lia.
  cbn [Value]. rewrite parse_value_open_bracket, parse_arr_elem.
  replace (length es + 9 + f)%nat with (8 + (length es + 1 + f))%nat at 1 by lia.
  rewrite (parse_value_elem _ e _ He).
  replace (8 + (length es + 1 + f))%nat with (length es + 9 + f)%nat by lia.
  rewrite (parse_arr_more_elems f es [] Hes). cbn [skip_ws array_of_json]. change (map content_json (e :: es)) with (content_json e :: map content_json es). change (contents_of_json (content_json e :: map content_json es)) with (contents_of_json (map content_json (e :: es))).
  rewrite contents_of_map_json. reflexivity.
Qed.

Lemma escape_char_parse_any c rest :
  parse_str_body (escape_char c ++ rest) = cons_fst (scrub c) (parse_str_body rest).
Proof.
  destruct (is_scalar c) eqn:Hs.
  - rewrite (escape_char_parse c rest Hs). unfold scrub. rewrite Hs. reflexivity.
  - unfold escape_char.
    destruct (Z.eqb_spec c 34) as [->|_]; [discriminate Hs|].
    destruct (Z.eqb_spec c 92) as [->|_]; [discriminate Hs|].
    destruct (Z.eqb_spec c 10) as [->|_]; [discriminate Hs|].
    destruct (Z.eqb_spec c 13) as [->|_]; [discriminate Hs|].
    destruct (Z.eqb_spec c 9) as [->|_]; [discriminate Hs|].
    destruct ((0 <=? c) && (c <? 32) || (c =? 60) || (c =? 62) || (c =? 38))%bool eqn:Ectl.
    + exfalso. repeat rewrite orb_true_iff in Ectl. repeat rewrite andb_true_iff in Ectl.
      rewrite Z.leb_le, Z.ltb_lt, !Z.eqb_eq in Ectl.
      unfold is_scalar in Hs.
      assert (Hc : (0 <=? c) = true /\ (c <=? 1114111) = true
                   /\ ((55296 <=? c) && (c <=? 57343))%bool = false).
      { split; [apply Z.leb_le; lia|]. split; [apply Z.leb_le; lia|].
        apply andb_false_iff. left. apply Z.leb_gt. lia. }
      destruct Hc as [Ha [Hb Hd]]. rewrite Ha, Hb, Hd in Hs. discriminate Hs.
    + destruct ((c =? 8232) || (c =? 8233))%bool eqn:E2.
      * apply orb_true_iff in E2. destruct E2 as [E2|E2]; apply Z.eqb_eq in E2; subst c;
          discriminate Hs.
      * rewrite Hs. unfold scrub. rewrite Hs. reflexivity.
Qed.

Lemma str_body_scrub s rest :
  parse_str_body (flat_map escape_char s ++ 34 :: rest) = Some (map scrub s, rest).
Proof.
  induction s as [|c s IH]; [reflexivity|].
  simpl. rewrite <- app_assoc, escape_char_parse_any, IH. reflexivity.
Qed.

Lemma parse_value_elem_any f e rest :
  parse_value (8 + f) (encode_content_elem e ++ rest)
  = Some (content_json (scrub_content e), rest).
Proof.
  unfold encode_content_elem, encode_string, member_prefix.
  replace (s2z "id") with [105; 100] by reflexivity.
  replace (s2z "path") with [112; 97; 116; 104] by reflexivity.
  replace (s2z "url") with [117; 114; 108] by reflexivity.
  replace (s2z "hash") with [104; 97; 115; 104] by reflexivity.
  simpl. rewrite <- !app_assoc. simpl.
  rewrite (str_body_scrub (ID e)). simpl.
  rewrite <- ?app_assoc. simpl.
  rewrite (str_body_scrub (Path e)). simpl.
  rewrite <- ?app_assoc. simpl.
  rewrite (str_body_scrub (Url e)). simpl.
  rewrite <- ?app_assoc. simpl.
  rewrite (str_body_scrub (Hash e)). simpl.
  reflexivity.
Qed.

Lemma parse_arr_more_elems_any f l rest :
  parse_arr_more (length l + 9 + f)
    (flat_map (fun x => 44 :: encode_content_elem x) l ++ 93 :: rest)
  = Some (map (fun x => content_json (scrub_content x)) l, rest).
Proof.
  induction l as [|x l IH]; [reflexivity|].
  change (length (x :: l) + 9 + f)%nat with (S (length l + 9 + f)).
  rewrite flat_map_elems_cons, parse_arr_more_elem.
  replace (length l + 9 + f)%nat with (8 + S (length l + f))%nat at 1 by lia.
  rewrite parse_value_elem_any.
  replace (8 + S (length l + f))%nat with (length l + 9 + f)%nat by lia.
  rewrite IH. reflexivity.
Qed.

Lemma contents_of_map_json_scrub l :
  contents_of_json (map (fun x => content_json (scrub_content x)) l)
  = Some (map scrub_content l).
Proof.
  induction l as [|x l IH]; [reflexivity|].
  cbn [map contents_of_json]. rewrite content_of_content_json, IH. reflexivity.
Qed.

Lemma Unmarshal_Value_any a :
  Unmarshal (Value a) = Some (option_map (map scrub_content) a).
Proof.
  destruct a as [[|e es]|]; [reflexivity| |reflexivity].
  assert (Hlen : (length es + 10 <= length (Value (Some (e :: es))))%nat).
  { simpl. rewrite !length_app. simpl.
    pose proof (length_encode_content_elem e). pose proof (length_flat_map_elems es). lia. }
  destruct (Nat.le_exists_sub _ _ Hlen) as [f [Hf _]].
  unfold Unmarshal. rewrite Hf.
  replace (f + (length es + 10))%nat with (S (length es + 9 + f)) by lia.
  cbn [Value]. rewrite parse_value_open_bracket, parse_arr_elem.
  replace (length es + 9 + f)%nat with (8 + (length es + 1 + f))%nat at 1 by lia.
  rewrite parse_value_elem_any.
  replace (8 + (length es + 1 + f))%nat with (length es + 9 + f)%nat by lia.
  rewrite (parse_arr_more_elems_any f es []). cbn [skip_ws array_of_json].
  change (contents_of_json (content_json (scrub_content e)
            :: map (fun x => content_json (scrub_content x)) es))
    with (contents_of_json (map (fun x => content_json (scrub_content x)) (e :: es))).
  rewrite contents_of_map_json_scrub. reflexivity.
Qed.


Lemma hexdig_range n : 0 <= n < 16 ->
  (48 <= hexdig n <= 57) \/ (97 <= hexdig n <= 102).
Proof. intros Hn. unfold hexdig. destruct (Z.ltb_spec n 10); lia. Qed.

Lemma escape_char_safe c :
  Forall (fun x => 32 <= x /\ x <> 60 /\ x <> 62 /\ x <> 38 /\ x <> 8232 /\ x <> 8233
                   /\ is_scalar x = true) (escape_char c).
Proof.
  assert (Hconst : forall l : list Z,
            forallb (fun x => (32 <=? x) && negb (x =? 60) && negb (x =? 62) && negb (x =? 38)
                              && negb (x =? 8232) && negb (x =? 8233) && is_scalar x)%bool l
            = true ->
            Forall (fun x => 32 <= x /\ x <> 60 /\ x <> 62 /\ x <> 38 /\ x <> 8232 /\ x <> 8233
                             /\ is_scalar x = true) l).
  { intros l Hl. apply List.Forall_forall. intros x Hx. rewrite forallb_forall in Hl.
    specialize (Hl x Hx). repeat rewrite andb_true_iff in Hl.
    rewrite !negb_true_iff, !Z.eqb_neq, Z.leb_le in Hl. tauto. }
  assert (Hhex : forall n, 0 <= n < 16 ->
            32 <= hexdig n /\ hexdig n <> 60 /\ hexdig n <> 62 /\ hexdig n <> 38
            /\ hexdig n <> 8232 /\ hexdig n <> 8233 /\ is_scalar (hexdig n) = true).
  { intros n Hn. destruct (hexdig_range n Hn) as [Hr|Hr];
      (split; [lia|]; do 5 (split; [lia|]);
       unfold is_scalar; rewrite (proj2 (Z.leb_le 0 _)), (proj2 (Z.leb_le _ 1114111)) by lia;
       rewrite (proj2 (Z.leb_gt 55296 _)) by lia; reflexivity). }
  unfold escape_char.
  destruct (Z.eqb_spec c 34); [apply Hconst; reflexivity|].
  destruct (Z.eqb_spec c 92); [apply Hconst; reflexivity|].
  destruct (Z.eqb_spec c 10); [apply Hconst; reflexivity|].
  destruct (Z.eqb_spec c 13); [apply Hconst; reflexivity|].
  destruct (Z.eqb_spec c 9); [apply Hconst; reflexivity|].
  destruct ((0 <=? c) && (c <? 32) || (c =? 60) || (c =? 62) || (c =? 38))%bool eqn:Ectl.
  - assert (Hc : 0 <= c < 256).
    { repeat rewrite orb_true_iff in Ectl. repeat rewrite andb_true_iff in Ectl.
      rewrite Z.leb_le, Z.ltb_lt, !Z.eqb_eq in Ectl. lia. }
    assert (Hq : 0 <= c / 16 < 16) by (split; [apply Z.div_pos|apply Z.div_lt_upper_bound]; lia).
    assert (Hm : 0 <= c mod 16 < 16) by (apply Z.mod_pos_bound; lia).
    repeat constructor; try lia; try reflexivity; apply Hhex; assumption.
  - destruct ((c =? 8232) || (c =? 8233))%bool eqn:E2.
    + assert (Hm : 0 <= c mod 16 < 16) by (apply Z.mod_pos_bound; lia).
      repeat constructor; try lia; try reflexivity; apply Hhex; assumption.
    + destruct (negb (is_scalar c)) eqn:Hs; [apply Hconst; reflexivity|].
      apply negb_false_iff in Hs.
      assert (H0 : 0 <= c).
      { unfold is_scalar in Hs. apply andb_true_iff in Hs. destruct Hs as [Hs _].
        apply andb_true_iff in Hs. destruct Hs as [Hs _]. apply Z.leb_le in Hs. exact Hs. }
      repeat rewrite orb_false_iff in *. repeat rewrite andb_false_iff in Ectl.
      rewrite Z.leb_gt, Z.ltb_ge, !Z.eqb_neq in *.
      constructor; [|constructor]. split; [lia|]. tauto.
Qed.

End JsonRoundTrip.
Lemma varchar255_short s t :
  (length s <= 255)%nat -> varchar255 s = Some t -> t = s /\ pg_text_ok s = true.
Proof.
  intros Hl. unfold varchar255. destruct (pg_text_ok s); simpl; [|discriminate].
  replace (length s <=? 255)%nat with true by (symmetry; apply Nat.leb_le; exact Hl).
  intros [= <-]. split; reflexivity.
Qed.
Module SchedFacts.
Import Sched.

Lemma inv_init s0 n : inv s0 (init_world s0 n).
Proof.
  unfold inv, init_world; simpl. split; [|split; [|split]].
  - intros i p Hp. apply lookup_replicate in Hp. destruct Hp as [-> _]. discriminate.
  - discriminate.
  - reflexivity.
  - constructor.
Qed.

Lemma inv_step s0 w w' : inv s0 w -> step w w' -> inv s0 w'.
Proof.
  intros [Hq [Hr [Hs Hseen]]] Hst.
  destruct Hst as [srv q seen|srv l q seen r|srv l q seen|srv rp q seen i Hi
                  |srv l rp q seen i Hi|srv l rp q seen i Hi]; simpl in *.
  - (* the refresher takes the lock *)
    split; [|split; [|split]]; auto.
    intros j p Hp Hc. specialize (Hq j p Hp Hc). discriminate.
  - (* the assignment to the global *)
    split; [|split; [|split]]; auto.
  - (* the refresher releases the lock *)
    split; [|split; [|split]]; auto.
    + intros j p Hp Hc. specialize (Hq j p Hp Hc). rewrite (Hr eq_refl) in Hq. discriminate.
    + discriminate.
  - (* a request takes the lock *)
    split; [|split; [|split]]; auto.
    + intros j p Hp Hc. apply list_lookup_insert_Some in Hp.
      destruct Hp as [[-> _]|[Hne Hp]]; [reflexivity|].
      specialize (Hq j p Hp Hc). discriminate.
    + intros Hc. specialize (Hr Hc). discriminate.
  - (* the admission check *)
    assert (Hl : l = Some (Reader i)) by exact (Hq i QCrit Hi eq_refl).
    split; [|split; [|split]]; auto.
    + intros j p Hp Hc. apply list_lookup_insert_Some in Hp.
      destruct Hp as [[-> _]|[Hne Hp]]; [exact Hl|].
      exact (Hq j p Hp Hc).
    + apply Forall_app. split; [exact Hseen|]. constructor; [exact Hs|constructor].
  - (* the request releases the lock *)
    assert (Hl : l = Some (Reader i)) by exact (Hq i QDecided Hi eq_refl).
    split; [|split; [|split]]; auto.
    + intros j p Hp Hc. apply list_lookup_insert_Some in Hp.
      destruct Hp as [[-> [<- _]]|[Hne Hp]]; [discriminate|].
      rewrite (Hq j p Hp Hc) in Hl. injection Hl as ->. congruence.
    + intros Hc. rewrite (Hr Hc) in Hl. discriminate.
Qed.

Lemma inv_reachable s0 n w : reachable (init_world s0 n) w -> inv s0 w.
Proof.
  induction 1 as [|w w' _ IH Hst]; [apply inv_init|]. exact (inv_step _ _ _ IH Hst).
Qed.

(** Mutual exclusion and complete snapshots, in every reachable state. *)
Lemma reachable_exclusive s0 n w :
  reachable (init_world s0 n) w ->
  (forall i j p p', w_qpc w !! i = Some p -> in_crit_q p = true ->
     w_qpc w !! j = Some p' -> in_crit_q p' = true -> i = j)
  /\ (forall i p, w_qpc w !! i = Some p -> in_crit_q p = true -> in_crit_r (w_rpc w) = false)
  /\ Forall (fun l => l = put_filter_ips s0) (w_seen w).
Proof.
  intros Hw. destruct (inv_reachable _ _ _ Hw) as [Hq [Hr [_ Hseen]]].
  split; [|split; [|exact Hseen]].
  - intros i j p p' Hi Hci Hj Hcj. rewrite (Hq i p Hi Hci) in Hq.
    specialize (Hq j p' Hj Hcj). congruence.
  - intros i p Hi Hci. destruct (in_crit_r (w_rpc w)) eqn:E; [|reflexivity].
    rewrite (Hq i p Hi Hci) in Hr. specialize (Hr eq_refl). discriminate.
Qed.

End SchedFacts.
Module NetFacts.
Import Net.

Lemma split_on_nonnil sep s : split_on sep s <> [].
Proof.
  destruct s as [|c r]; simpl; [discriminate|].
  destruct (Z.eqb c sep); [discriminate|]. destruct (split_on sep r); discriminate.
Qed.

Lemma In_split_on sep c s :
  In c s -> c <> sep -> exists f, In f (split_on sep s) /\ In c f.
Proof.
  induction s as [|x r IH]; [intros []|]. intros Hin Hne. simpl.
  destruct (Z.eqb_spec x sep) as [->|Hx].
  - destruct Hin as [->|Hin]; [congruence|].
    destruct (IH Hin Hne) as [f [Hf Hc]]. exists f. split; [right|]; assumption.
  - destruct (split_on sep r) as [|f fs] eqn:Hs; [exfalso; exact (split_on_nonnil sep r Hs)|].
    destruct Hin as [->|Hin].
    + exists (c :: f). split; [left; reflexivity|left; reflexivity].
    + destruct (IH Hin Hne) as [g [Hg Hc]].
      destruct Hg as [Hfg|Hg]; [subst f|].
      * exists (x :: g). split; [left; reflexivity|right; exact Hc].
      * exists g. split; [right; exact Hg|exact Hc].
Qed.

Lemma digits_val_nonneg acc s :
  0 <= acc -> forallb is_digit s = true -> 0 <= digits_val acc s.
Proof.
  revert acc. induction s as [|c r IH]; intros acc Hacc Hd; simpl; [exact Hacc|].
  simpl in Hd. apply andb_true_iff in Hd. destruct Hd as [Hc Hr].
  unfold is_digit in Hc. apply andb_true_iff in Hc. rewrite !Z.leb_le in Hc.
  apply IH; [lia|exact Hr].
Qed.

Lemma parse_octet_spec f v :
  parse_octet f = Some v -> forallb is_digit f = true /\ 0 <= v <= 255.
Proof.
  destruct f as [|c r]; simpl; [discriminate|].
  destruct (is_digit c && forallb is_digit r)%bool eqn:Hd; simpl; [|discriminate].
  destruct (Z.eqb c 48 && negb (Nat.eqb (length r) 0))%bool; [discriminate|].
  destruct (Z.leb_spec (digits_val (0 * 10 + (c - 48)) r) 255); [|discriminate].
  intros [= <-]. split; [reflexivity|]. split; [|assumption].
  apply andb_true_iff in Hd. destruct Hd as [Hc Hr].
  apply digits_val_nonneg; [|exact Hr].
  unfold is_digit in Hc. apply andb_true_iff in Hc. rewrite !Z.leb_le in Hc. lia.
Qed.

Lemma parseIPv4_spec s q :
  parseIPv4 s = Some q ->
  ~ In 47 s /\ exists a b c d, q = [a; b; c; d]
                  /\ 0 <= a <= 255 /\ 0 <= b <= 255 /\ 0 <= c <= 255 /\ 0 <= d <= 255.
Proof.
  unfold parseIPv4. destruct (split_on 46 s) as [|fa [|fb [|fc [|fd [|]]]]] eqn:Hs;
    try discriminate.
  destruct (parse_octet fa) as [a|] eqn:Ha; [|discriminate].
  destruct (parse_octet fb) as [b|] eqn:Hb; [|discriminate].
  destruct (parse_octet fc) as [c|] eqn:Hc; [|discriminate].
  destruct (parse_octet fd) as [d|] eqn:Hd; [|discriminate].
  intros [= <-].
  apply parse_octet_spec in Ha, Hb, Hc, Hd.
  split; [|exists a, b, c, d; intuition].
  intros Hin. destruct (In_split_on 46 47 s Hin ltac:(discriminate)) as [f [Hf H47]].
  rewrite Hs in Hf.
  assert (Hdig : forallb is_digit f = true)
    by (destruct Hf as [<-|[<-|[<-|[<-|[]]]]]; tauto).
  rewrite forallb_forall in Hdig. specialize (Hdig 47 H47). discriminate Hdig.
Qed.

Lemma split_first_app sep s ms :
  ~ In sep s -> split_first sep (s ++ sep :: ms) = Some (s, ms).
Proof.
  induction s as [|c r IH]; intros Hn; simpl; [rewrite Z.eqb_refl; reflexivity|].
  destruct (Z.eqb_spec c sep) as [->|_]; [exfalso; apply Hn; left; reflexivity|].
  rewrite IH; [reflexivity|]. intros H. apply Hn. right. exact H.
Qed.

Lemma ParseCIDR_v4_app addr q ms :
  parseIPv4 addr = Some q ->
  ms <> [] -> forallb is_digit ms = true -> digits_val 0 ms <= 32 ->
  ParseCIDR_v4 (addr ++ 47 :: ms)
  = Some (mkIPNet (map (fun '(a, b) => Z.land a b) (combine q (CIDRMask4 (digits_val 0 ms))))
                  (CIDRMask4 (digits_val 0 ms))).
Proof.
  intros Hq Hne Hd Hle. pose proof (parseIPv4_spec _ _ Hq) as [Hn _].
  unfold ParseCIDR_v4. rewrite (split_first_app _ _ _ Hn), Hq, Hd.
  destruct ms as [|? ?]; [congruence|]. simpl negb.
  rewrite (proj2 (Z.leb_le _ _) Hle). reflexivity.
Qed.

Lemma ParseIP_v4_ok ip q : parseIPv4 ip = Some q -> ParseIP_v4 ip = v4InV6Prefix ++ q.
Proof. unfold ParseIP_v4. intros ->. reflexivity. Qed.

(** Contains for a 4-byte network and mask and an address from ParseIP. *)
Lemma Contains_v4 a b c d m0 m1 m2 m3 x y z w :
  Contains (mkIPNet [a; b; c; d] [m0; m1; m2; m3]) (v4InV6Prefix ++ [x; y; z; w])
  = masked_eq [a; b; c; d] [m0; m1; m2; m3] [x; y; z; w].
Proof. reflexivity. Qed.

Lemma land_byte_255 a : 0 <= a <= 255 -> Z.land a 255 = a.
Proof.
  intros Ha. change 255 with (Z.ones 8). rewrite Z.land_ones by lia.
  apply Z.mod_small. change (2 ^ 8) with 256. lia.
Qed.

End NetFacts.
Lemma flat_map_escape_safe s :
  Forall (fun x => 32 <= x /\ x <> 60 /\ x <> 62 /\ x <> 38 /\ x <> 8232 /\ x <> 8233
                   /\ Json.is_scalar x = true) (flat_map Json.escape_char s).
Proof.
  induction s as [|c s IH]; [constructor|]. simpl.
  apply Forall_app. split; [apply JsonRoundTrip.escape_char_safe|exact IH].
Qed.

Lemma safe_of_forallb l :
  forallb (fun x => (32 <=? x) && negb (x =? 60) && negb (x =? 62) && negb (x =? 38)
                    && negb (x =? 8232) && negb (x =? 8233) && Json.is_scalar x)%bool l = true ->
  Forall (fun x => 32 <= x /\ x <> 60 /\ x <> 62 /\ x <> 38 /\ x <> 8232 /\ x <> 8233
                   /\ Json.is_scalar x = true) l.
Proof.
  intros Hl. apply List.Forall_forall. intros x Hx.
  apply (proj1 (forallb_forall _ l) Hl) in Hx.
  rewrite !andb_true_iff, !negb_true_iff, !Z.eqb_neq, Z.leb_le in Hx. tauto.
Qed.

Lemma encode_string_safe s :
  Forall (fun x => 32 <= x /\ x <> 60 /\ x <> 62 /\ x <> 38 /\ x <> 8232 /\ x <> 8233
                   /\ Json.is_scalar x = true) (Json.encode_string s).
Proof.
  unfold Json.encode_string. apply List.Forall_cons.
  - exact (List.Forall_inv (safe_of_forallb [34] eq_refl)).
  - apply Forall_app. split; [apply flat_map_escape_safe|apply safe_of_forallb; reflexivity].
Qed.

Lemma encode_content_elem_safe e :
  Forall (fun x => 32 <= x /\ x <> 60 /\ x <> 62 /\ x <> 38 /\ x <> 8232 /\ x <> 8233
                   /\ Json.is_scalar x = true) (Json.encode_content_elem e).
Proof.
  unfold Json.encode_content_elem. rewrite !Forall_app.
  repeat split; first [apply encode_string_safe | apply safe_of_forallb; reflexivity].
Qed.

(** The table as this process leaves it: it exists and every content
    value is a text LockfileContentArray.Value wrote. *)
Definition content_inv (db : DB) : Prop :=
  match db with
  | None => False
  | Some rows => map_Forall (fun _ r => exists a, row_content r = Json.Value a) rows
  end.

Lemma content_inv_initTables db m :
  match db with
  | Some rows => map_Forall (fun _ r => exists a, row_content r = Json.Value a) rows
  | None => True
  end ->
  content_inv (initTables db m).
Proof.
  destruct db as [rows|]; simpl; [|intros _; apply map_Forall_empty].
  intros H. destruct (_ || _)%bool; simpl; [apply map_Forall_empty|exact H].
Qed.

Lemma content_inv_run_op db op : content_inv db -> content_inv (run_op db op).
Proof.
  intros H. destruct op as [m|id body now fresh|id]; simpl.
  - apply content_inv_initTables. destruct db; [exact H|exact I].
  - unfold PutLockfileHandler. destruct body as [r|]; [|exact H].
    destruct (negb _); [exact H|]. unfold upsert.
    destruct db as [rows|]; [|exact H].
    destruct (varchar255 id) as [rid|]; [|exact H].
    destruct (varchar255 (req_RepositoryName r)); [|exact H].
    destruct (rows !! rid); simpl; apply map_Forall_insert_2; try exact H;
      simpl; eexists; reflexivity.
  - exact H.
Qed.

Lemma content_inv_run_ops db ops : content_inv db -> content_inv (run_ops db ops).
Proof.
  unfold run_ops. revert db. induction ops as [|op ops IH]; intros db H; simpl; [exact H|].
  apply IH, content_inv_run_op, H.
Qed.

Lemma varchar255_spaces s :
  pg_text_ok s = true -> forallb (fun c => c =? 32) (skipn 255 s) = true ->
  varchar255 s = Some (firstn 255 s).
Proof.
  intros Ht Hs. unfold varchar255. rewrite Ht. cbn [negb].
  destruct (length s <=? 255)%nat eqn:Hl; [|rewrite Hs; reflexivity].
  rewrite firstn_all2 by (apply Nat.leb_le; exact Hl). reflexivity.
Qed.

Lemma put_stores_truncated rows id name l now fresh :
  table_wf rows -> name <> [] ->
  pg_text_ok id = true -> pg_text_ok name = true ->
  forallb (fun c => c =? 32) (skipn 255 id) = true ->
  forallb (fun c => c =? 32) (skipn 255 name) = true ->
  exists row,
    PutLockfileHandler (Some rows) id (Some (mkPutLockfileRequest name (Some l))) now fresh
    = (PutOK, Some (<[firstn 255 id := row]> rows))
    /\ row_repository_id row = firstn 255 id
    /\ row_repository_name row = firstn 255 name
    /\ row_content row = Json.Value (Some l).
Proof.
  intros Hwf Hn Hid Hname Hsid Hsname.
  unfold PutLockfileHandler. rewrite ValidateStruct_spec.
  cbn [req_RepositoryName req_Posts].
  destruct name as [|c name]; [congruence|]. cbn [length Nat.eqb negb andb].
  unfold upsert. cbn [req_RepositoryName req_Posts].
  rewrite (varchar255_spaces id Hid Hsid), (varchar255_spaces (c :: name) Hname Hsname).
  destruct (rows !! firstn 255 id) as [r|] eqn:Hr.
  - eexists. split; [reflexivity|]. cbn. split; [apply (Hwf _ _ Hr)|auto].
  - eexists. split; [reflexivity|]. cbn. auto.
Qed.

(** * The properties of the specification *)

(** C1: after a successful refresh replaced the range set by R, the PUT
    admission decision is still computed against the startup snapshot: with
    startup snapshot {10.0.0.0/8} and a refresh to {192.168.0.0/16}, the
    caller 192.168.1.1 is inside the current snapshot and is denied. *)
Theorem put_admission_ignores_refresh :
  match startup (FetchOk [s2z "10.0.0.0/8"]) with
  | Some s0 =>
      let s1 := refresh_tick s0 (FetchOk [s2z "192.168.0.0/16"]) in
      githubActionsIPs s1 = [s2z "192.168.0.0/16"]
      /\ isAllowedIP (s2z "192.168.1.1") (githubActionsIPs s1) = Ret true
      /\ put_decision s1 (s2z "192.168.1.1") = Ret false
      /\ (forall rs ip, put_decision (refresh_ticks s0 rs) ip = isAllowedIP ip [s2z "10.0.0.0/8"])
  | None => False
  end.
Proof.
  simpl. split; [reflexivity|]. split; [vm_compute; reflexivity|].
  split; [vm_compute; reflexivity|].
  intros rs ip. rewrite put_decision_refresh_ticks. reflexivity.
Qed.

(** C2: a failed refresh tick overwrites the snapshot with what
    fetchGithubActionsIPs returned on error (the zero value, Actions = nil,
    after a transport error or a non-200 status): the snapshot {10.0.0.0/8}
    becomes empty, and 10.1.2.3, allowed against it before, is not allowed
    against it after. *)
Theorem failed_refresh_clears_snapshot :
  let s0 := mkServer [s2z "10.0.0.0/8"] [s2z "10.0.0.0/8"] [] in
  let s1 := refresh_tick s0 (FetchErr []) in
  githubActionsIPs s1 = []
  /\ isAllowedIP (s2z "10.1.2.3") (githubActionsIPs s0) = Ret true
  /\ isAllowedIP (s2z "10.1.2.3") (githubActionsIPs s1) = Ret false
  /\ log s1 = [fetch_failed_msg]
  /\ (forall s d, githubActionsIPs (refresh_tick s (FetchErr d)) = d).
Proof.
  simpl. split; [reflexivity|]. split; [vm_compute; reflexivity|].
  split; [reflexivity|]. split; [reflexivity|]. reflexivity.
Qed.

(** C3: a malformed range is not skipped: isAllowedIP dereferences the nil
    *IPNet that net.ParseCIDR returns for it and panics, where the set
    without it gives an answer. *)
Theorem malformed_range_panics :
  isAllowedIP (s2z "10.1.2.3") [s2z "not-a-cidr"] = Panic
  /\ isAllowedIP (s2z "10.1.2.3") [] = Ret false
  /\ isAllowedIP (s2z "10.1.2.3") [s2z "not-a-cidr"; s2z "10.0.0.0/8"] = Panic
  /\ isAllowedIP (s2z "10.1.2.3") [s2z "10.0.0.0/8"] = Ret true.
Proof. vm_compute. repeat split. Qed.

(** C4: when every range of the set parses, isAllowedIP returns true iff
    the caller's address parses and some range contains it (IPNet.Contains),
    and false otherwise; an unparsable address and the empty set are always
    denied. *)
Theorem isAllowedIP_wellformed_iff `{NL : NetLib} (ip : str) (ranges : list str) :
  Forall (fun r => ParseCIDR r <> None) ranges ->
  (isAllowedIP ip ranges = Ret true <->
     ParseIP ip <> []
     /\ exists r n, In r ranges /\ ParseCIDR r = Some n /\ Contains n (ParseIP ip) = true)
  /\ (isAllowedIP ip ranges = Ret false <->
     ~ (ParseIP ip <> []
        /\ exists r n, In r ranges /\ ParseCIDR r = Some n /\ Contains n (ParseIP ip) = true))
  /\ (ParseIP ip = [] -> isAllowedIP ip ranges = Ret false)
  /\ isAllowedIP ip [] = Ret false.
Proof.
  intros Hp. unfold isAllowedIP. rewrite (allowed_loop_parsed _ _ Hp).
  assert (Hnil : ParseIP ip = [] -> existsb (range_contains (ParseIP ip)) ranges = false).
  { intros E. rewrite E. apply existsb_range_contains_nil. }
  split; [|split; [|split]].
  - split.
    + intros E. injection E as E. split.
      * intros En. specialize (Hnil En). congruence.
      * apply existsb_range_contains_iff. exact E.
    + intros [_ Hex]. apply existsb_range_contains_iff in Hex. rewrite Hex. reflexivity.
  - split.
    + intros E [_ Hex]. injection E as E. apply existsb_range_contains_iff in Hex.
      congruence.
    + intros Hn. destruct (existsb (range_contains (ParseIP ip)) ranges) eqn:Ex;
        [|reflexivity].
      exfalso. apply Hn. split.
      * intros En. specialize (Hnil En). congruence.
      * apply existsb_range_contains_iff. exact Ex.
  - intros E. rewrite (Hnil E). reflexivity.
  - reflexivity.
Qed.

Lemma isAllowedIP_wellformed_iff_witness :
  Forall (fun r => ParseCIDR (NetLib := GoNetV4) r <> None)
    [s2z "10.0.0.0/8"; s2z "192.168.0.0/16"]
  /\ isAllowedIP (NL := GoNetV4) (s2z "192.168.1.1") [s2z "10.0.0.0/8"; s2z "192.168.0.0/16"]
     = Ret true.
Proof.
  assert (Hp : Forall (fun r => ParseCIDR (NetLib := GoNetV4) r <> None)
                 [s2z "10.0.0.0/8"; s2z "192.168.0.0/16"]).
  { repeat constructor; vm_compute; discriminate. }
  split; [exact Hp|].
  apply (proj2 (proj1 (isAllowedIP_wellformed_iff (NL := GoNetV4) (s2z "192.168.1.1") _ Hp))).
  split; [vm_compute; discriminate|].
  exists (s2z "192.168.0.0/16"), (mkIPNet [192; 168; 0; 0] [255; 255; 0; 0]).
  split; [right; left; reflexivity|]. split; vm_compute; reflexivity.
Defined.

(** C5: validation only checks the two top-level fields: the validator
    does not descend into the elements of [Posts] (no [dive] tag), so an
    entry whose fields are empty is accepted and stored, although each
    field of LockfileContent is tagged [binding:"required"]. A payload the
    validator rejects leaves the table unchanged. *)
Theorem empty_entry_fields_accepted :
  let req := mkPutLockfileRequest (s2z "My Repo")
               (Some [mkLockfileContent [] (s2z "/p") (s2z "http://x") (s2z "h1")]) in
  Validate.traverse [Validate.Required] (Validate.content_gval (mkLockfileContent [] (s2z "/p") (s2z "http://x") (s2z "h1"))) = false
  /\ Validate.ValidateStruct req = true
  /\ fst (PutLockfileHandler (Some ∅) (s2z "repo-1") (Some req) 1 7) = PutOK
  /\ GetLockfileHandler (snd (PutLockfileHandler (Some ∅) (s2z "repo-1") (Some req) 1 7)) (s2z "repo-1")
     = GetData (mkLockfile 7 (s2z "My Repo") (s2z "repo-1") (req_Posts req) 1 1)
  /\ (forall db id r now fresh, Validate.ValidateStruct r = false ->
        PutLockfileHandler db id (Some r) now fresh = (PutBadRequest, db)).
Proof.
  split; [reflexivity|]. split; [reflexivity|]. split; [reflexivity|].
  split; [vm_compute; reflexivity|].
  intros db id r now fresh H. unfold PutLockfileHandler. rewrite H. reflexivity.
Qed.

(** C6 (as stated): two successful PUTs for the same identifier whose
    transactions read the same CURRENT_TIMESTAMP leave updatedAt unchanged,
    so it is not strictly increasing. *)
Lemma updatedAt_not_strictly_increasing :
  let req := mkPutLockfileRequest (s2z "My Repo") (Some []) in
  let db1 := snd (PutLockfileHandler (Some ∅) (s2z "repo-1") (Some req) 5 7) in
  let db2 := snd (PutLockfileHandler db1 (s2z "repo-1") (Some req) 5 9) in
  fst (PutLockfileHandler db1 (s2z "repo-1") (Some req) 5 9) = PutOK
  /\ GetLockfileHandler db1 (s2z "repo-1")
     = GetData (mkLockfile 7 (s2z "My Repo") (s2z "repo-1") (Some []) 5 5)
  /\ GetLockfileHandler db2 (s2z "repo-1")
     = GetData (mkLockfile 7 (s2z "My Repo") (s2z "repo-1") (Some []) 5 5)
  /\ ~ (forall lf1 lf2, GetLockfileHandler db1 (s2z "repo-1") = GetData lf1 ->
          GetLockfileHandler db2 (s2z "repo-1") = GetData lf2 ->
          lf_UpdatedAt lf1 < lf_UpdatedAt lf2).
Proof.
  vm_compute. split; [reflexivity|]. split; [reflexivity|]. split; [reflexivity|].
  intros H. specialize (H _ _ eq_refl eq_refl). vm_compute in H. discriminate H.
Qed.

(** C6 (amended): a successful PUT on an identifier whose document exists
    keeps the row's id and created_at, replaces repository_name (as
    assigned to its VARCHAR(255) column) and content, sets updated_at to
    the CURRENT_TIMESTAMP [now] of its transaction, and leaves the other
    rows alone. *)
Theorem put_existing_keeps_id_createdAt (rows : gmap str Row) (id : str) (old : Row)
    (req : PutLockfileRequest) (now fresh : Z) :
  table_wf rows -> rows !! id = Some old ->
  fst (PutLockfileHandler (Some rows) id (Some req) now fresh) = PutOK ->
  exists rows' rname,
    snd (PutLockfileHandler (Some rows) id (Some req) now fresh) = Some rows'
    /\ varchar255 (req_RepositoryName req) = Some rname
    /\ rows' !! id = Some (mkRow (row_id old) id rname (Json.Value (req_Posts req))
                                 (row_created_at old) now)
    /\ (forall k, k <> id -> rows' !! k = rows !! k).
Proof.
  intros Hwf Hold. destruct (Hwf id old Hold) as [Hrid Hid].
  unfold PutLockfileHandler. destruct (Validate.ValidateStruct req); simpl; [|discriminate].
  rewrite Hid. destruct (varchar255 (req_RepositoryName req)) as [rname|]; simpl;
    [|discriminate].
  rewrite Hold. intros _. eexists _, rname. split; [reflexivity|]. split; [reflexivity|].
  split.
  - rewrite lookup_insert_eq, Hrid. reflexivity.
  - intros k Hk. rewrite lookup_insert_ne by congruence. reflexivity.
Qed.

Lemma put_existing_keeps_id_createdAt_witness :
  table_wf {[ s2z "repo-1" := mkRow 7 (s2z "repo-1") (s2z "Old") (s2z "[]") 1 1 ]}
  /\ exists rows' rname,
    snd (PutLockfileHandler (Some {[ s2z "repo-1" := mkRow 7 (s2z "repo-1") (s2z "Old") (s2z "[]") 1 1 ]})
           (s2z "repo-1") (Some (mkPutLockfileRequest (s2z "New") (Some []))) 4 9) = Some rows'
    /\ varchar255 (s2z "New") = Some rname
    /\ rows' !! s2z "repo-1" = Some (mkRow 7 (s2z "repo-1") rname (s2z "[]") 1 4)
    /\ (forall k, k <> s2z "repo-1" -> rows' !! k = ({[ s2z "repo-1" := mkRow 7 (s2z "repo-1") (s2z "Old") (s2z "[]") 1 1 ]} : gmap str Row) !! k).
Proof.
  assert (Hwf : table_wf {[ s2z "repo-1" := mkRow 7 (s2z "repo-1") (s2z "Old") (s2z "[]") 1 1 ]}).
  { apply map_Forall_singleton. split; reflexivity. }
  split; [exact Hwf|].
  exact (put_existing_keeps_id_createdAt _ (s2z "repo-1") _
           (mkPutLockfileRequest (s2z "New") (Some [])) 4 9 Hwf
           (lookup_singleton_eq _ _) eq_refl).
Defined.

(** C7 (as stated): a PUT whose repositoryName is 255 letters followed by a
    space is accepted, but the VARCHAR(255) column keeps only the first 255
    characters, so the following GET returns a repositoryName different from
    the submitted one. *)
Lemma put_get_name_truncated :
  let name := repeat 97 255 ++ [32] in
  let put := PutLockfileHandler (Some ∅) (s2z "repo-1")
               (Some (mkPutLockfileRequest name (Some []))) 1 7 in
  fst put = PutOK
  /\ GetLockfileHandler (snd put) (s2z "repo-1")
     = GetData (mkLockfile 7 (repeat 97 255) (s2z "repo-1") (Some []) 1 1)
  /\ repeat 97 255 <> name.
Proof.
  vm_compute. split; [reflexivity|]. split; [reflexivity|]. discriminate.
Qed.

(** C7 (amended): the content codec is lossless on entry lists whose strings
    are Unicode scalar values (as every decoded request's are): Scan of Value
    gives the list back. A PutLockfileHandler db id (Some (mkPutLockfileRequest name (Some l))) now fresh with a non-empty repositoryName and entries
    succeeds on an existing table whenever repositoryId and repositoryName
    are text PostgreSQL accepts whose characters beyond the 255th, if any,
    are all spaces; a GET of the repositoryId as stored (its first 255
    characters) then returns that repositoryId, the repositoryName truncated
    to 255 characters and the entries. When both have at most 255
    characters, nothing is truncated: a GET of the same repositoryId returns
    that repositoryId, that repositoryName and those entries. *)
Theorem put_then_get_roundtrip (db : DB) (id name : str) (l : list LockfileContent)
    (now fresh : Z) :
  db_wf db -> db <> None -> name <> [] ->
  pg_text_ok id = true -> pg_text_ok name = true ->
  forallb (fun c => c =? 32) (skipn 255 id) = true ->
  forallb (fun c => c =? 32) (skipn 255 name) = true ->
  Forall Json.scalar_content l ->
  Json.Scan (Json.Value (Some l)) = Some (Some l)
  /\ fst (PutLockfileHandler db id (Some (mkPutLockfileRequest name (Some l))) now fresh) = PutOK
  /\ exists lf, GetLockfileHandler (snd (PutLockfileHandler db id (Some (mkPutLockfileRequest name (Some l))) now fresh)) (firstn 255 id) = GetData lf
       /\ lf_RepositoryID lf = firstn 255 id /\ lf_RepositoryName lf = firstn 255 name
       /\ lf_Content lf = Some l
       /\ ((length id <= 255)%nat -> (length name <= 255)%nat ->
           GetLockfileHandler (snd (PutLockfileHandler db id (Some (mkPutLockfileRequest name (Some l))) now fresh)) id = GetData lf
           /\ lf_RepositoryID lf = id /\ lf_RepositoryName lf = name).
Proof.
  intros Hwf Hdb Hn Hid Hname Hsid Hsname Hl.
  assert (Hcodec : Json.Scan (Json.Value (Some l)) = Some (Some l))
    by exact (JsonRoundTrip.Unmarshal_Value l Hl).
  split; [exact Hcodec|].
  destruct db as [rows|]; [|congruence].
  destruct (put_stores_truncated rows id name l now fresh Hwf Hn Hid Hname Hsid Hsname)
    as [row [-> [Hrid [Hrn Hrc]]]].
  cbn [fst snd]. split; [reflexivity|].
  assert (Hget : GetLockfileHandler (Some (<[firstn 255 id := row]> rows)) (firstn 255 id)
                 = GetData (mkLockfile (row_id row) (firstn 255 name) (firstn 255 id) (Some l)
                              (row_created_at row) (row_updated_at row))).
  { assert (Hp : pg_text_ok (firstn 255 id) = true) by exact (forallb_firstn _ 255 id Hid).
    unfold GetLockfileHandler, select_lockfile.
    rewrite Hp, lookup_insert_eq, Hrc, Hcodec, Hrn, Hrid.
    reflexivity. }
  eexists. split; [exact Hget|]. cbn [lf_RepositoryID lf_RepositoryName lf_Content].
  split; [reflexivity|]. split; [reflexivity|]. split; [reflexivity|].
  intros Hlid Hlname.
  rewrite (firstn_all2 id Hlid), (firstn_all2 name Hlname) in *.
  split; [exact Hget|]. split; reflexivity.
Qed.

Lemma put_then_get_roundtrip_witness :
  db_wf (Some ∅) /\ Some (∅ : gmap str Row) <> None
  /\ repeat 97 255 ++ [32; 32] <> []
  /\ pg_text_ok (s2z "repo-1") = true /\ pg_text_ok (repeat 97 255 ++ [32; 32]) = true
  /\ forallb (fun c => c =? 32) (skipn 255 (s2z "repo-1")) = true
  /\ forallb (fun c => c =? 32) (skipn 255 (repeat 97 255 ++ [32; 32])) = true
  /\ Json.scalar_content (mkLockfileContent (s2z "p1") (s2z "/a<b>") (s2z "http://x") (s2z "h1"))
  /\ fst (PutLockfileHandler (Some ∅) (s2z "repo-1")
            (Some (mkPutLockfileRequest (repeat 97 255 ++ [32; 32])
                     (Some [mkLockfileContent (s2z "p1") (s2z "/a<b>")
                              (s2z "http://x") (s2z "h1")]))) 1 7) = PutOK.
Proof.
  assert (Hwf : db_wf (Some ∅)) by (intros k r Hk; rewrite lookup_empty in Hk; discriminate).
  assert (Hdb : Some (∅ : gmap str Row) <> None) by discriminate.
  assert (Hn : repeat 97 255 ++ [32; 32] <> []) by (vm_compute; discriminate).
  assert (H1 : pg_text_ok (s2z "repo-1") = true) by reflexivity.
  assert (H2 : pg_text_ok (repeat 97 255 ++ [32; 32]) = true) by reflexivity.
  assert (H3 : forallb (fun c => c =? 32) (skipn 255 (s2z "repo-1")) = true) by reflexivity.
  assert (H4 : forallb (fun c => c =? 32) (skipn 255 (repeat 97 255 ++ [32; 32])) = true)
    by reflexivity.
  assert (Hc : Json.scalar_content
                 (mkLockfileContent (s2z "p1") (s2z "/a<b>") (s2z "http://x") (s2z "h1")))
    by (repeat split; repeat constructor).
  do 8 (split; [assumption|]).
  exact (proj1 (proj2 (put_then_get_roundtrip (Some ∅) (s2z "repo-1")
                   (repeat 97 255 ++ [32; 32]) _ 1 7 Hwf Hdb Hn H1 H2 H3 H4
                   ltac:(constructor; [exact Hc|constructor])))).
Defined.

(** C8 (as stated): an identifier PostgreSQL cannot take as a text
    parameter has never been written, yet its GET is answered with a server
    fault: here one holding a NUL character (/lockfiles/%00) and one holding
    the invalid UTF-8 byte of /lockfiles/%ff (written as the non-scalar
    value 55296). *)
Lemma get_nul_identifier_faults :
  let db := run_ops None [OpInit (s2z "release")] in
  db = Some ∅
  /\ GetLockfileHandler db [0] = GetServerError
  /\ GetLockfileHandler db [55296] = GetServerError.
Proof. vm_compute. split; [reflexivity|]. split; reflexivity. Qed.

(** C8 (amended): after startup, a GET for an identifier that is text
    PostgreSQL accepts (valid UTF-8 without NUL), that no PUT has written
    since startup and that was not kept in the table by the startup (it
    was not stored before, or GIN_MODE is not "release" and the table was
    dropped) answers "no data", not a fault; a GET for an identifier that
    PostgreSQL rejects as text (a NUL or invalid UTF-8) answers with a
    server fault. *)
Theorem get_unwritten_is_absent (db0 : DB) (gin_mode id : str) (ops : list db_op) :
  pg_text_ok id = true ->
  (~ doc_exists db0 id \/ gin_mode <> s2z "release") ->
  Forall (fun op => op_writes id op = false) ops ->
  GetLockfileHandler (run_ops (initTables db0 gin_mode) ops) id = GetNoData
  /\ (forall id', pg_text_ok id' = false ->
        GetLockfileHandler (run_ops (initTables db0 gin_mode) ops) id' = GetServerError).
Proof.
  intros Ht Hd Hops. split.
  2:{ intros id' Hb. unfold GetLockfileHandler, select_lockfile.
      destruct (run_ops _ _); [rewrite Hb|]; reflexivity. }
  assert (Hinv : exists rows, initTables db0 gin_mode = Some rows /\ rows !! id = None).
  { destruct db0 as [rows|]; simpl.
    - destruct (_ || _)%bool eqn:Eb.
      + exists ∅. split; [reflexivity|apply lookup_empty].
      + exists rows. split; [reflexivity|]. apply eq_None_not_Some.
        destruct Hd as [Hd|Hm]; [exact Hd|]. exfalso.
        unfold zlist_eqb in Eb. rewrite (bool_decide_eq_false_2 _ Hm) in Eb.
        destruct (bool_decide (rows = ∅)); discriminate.
    - exists ∅. split; [reflexivity|apply lookup_empty]. }
  unfold run_ops. revert Hinv. generalize (initTables db0 gin_mode).
  induction Hops as [|op ops Hop Hops IH]; intros db Hinv; simpl.
  - destruct Hinv as [rows [-> Hn]]. unfold GetLockfileHandler, select_lockfile.
    rewrite Ht, Hn. reflexivity.
  - apply IH. apply run_op_keeps_absent; assumption.
Qed.

Lemma get_unwritten_is_absent_witness :
  pg_text_ok (s2z "repo-2") = true
  /\ (~ doc_exists None (s2z "repo-2") \/ s2z "release" <> s2z "release")
  /\ Forall (fun op => op_writes (s2z "repo-2") op = false)
       [OpPut (s2z "repo-1") (Some (mkPutLockfileRequest (s2z "My Repo") (Some []))) 1 7]
  /\ GetLockfileHandler
       (run_ops (initTables None (s2z "release"))
          [OpPut (s2z "repo-1") (Some (mkPutLockfileRequest (s2z "My Repo") (Some []))) 1 7])
       (s2z "repo-2") = GetNoData.
Proof.
  assert (H1 : pg_text_ok (s2z "repo-2") = true) by reflexivity.
  assert (H2 : ~ doc_exists None (s2z "repo-2") \/ s2z "release" <> s2z "release")
    by (left; simpl; auto).
  assert (H3 : Forall (fun op => op_writes (s2z "repo-2") op = false)
       [OpPut (s2z "repo-1") (Some (mkPutLockfileRequest (s2z "My Repo") (Some []))) 1 7]).
  { constructor; [vm_compute; reflexivity|constructor]. }
  split; [exact H1|]. split; [exact H2|]. split; [exact H3|].
  exact (proj1 (get_unwritten_is_absent None (s2z "release") (s2z "repo-2") _ H1 H2 H3)).
Defined.

(** C9 (as stated): startup with GIN_MODE unset (not "release") drops the
    table with its documents. *)
Lemma startup_dev_mode_drops_documents :
  let db := Some ({[ s2z "repo-1" := mkRow 7 (s2z "repo-1") (s2z "My Repo") (s2z "[]") 1 1 ]}
                  : gmap str Row) in
  doc_exists db (s2z "repo-1")
  /\ initTables db [] = Some ∅
  /\ ~ doc_exists (run_op db (OpInit [])) (s2z "repo-1").
Proof.
  simpl. split; [rewrite lookup_singleton_eq; eauto|].
  split; [vm_compute; reflexivity|].
  vm_compute. intros [? H]. discriminate H.
Qed.

(** C9 (amended): GET and PUT never remove a stored document, nor does the
    startup initialization in release mode; startup initialization with
    GIN_MODE other than "release" drops the table and every document. *)
Theorem documents_removed_only_by_dev_startup (db : DB) (id : str) (op : db_op) :
  doc_exists db id ->
  (forall m, op = OpInit m -> m = s2z "release") ->
  doc_exists (run_op db op) id
  /\ (forall m, m <> s2z "release" -> initTables db m = Some ∅).
Proof.
  intros Hd Hop. split; [apply run_op_keeps_doc; assumption|].
  intros m Hm. destruct db as [rows|]; simpl; [|reflexivity].
  destruct (bool_decide (rows = ∅)); simpl; [reflexivity|].
  unfold zlist_eqb. rewrite (bool_decide_eq_false_2 _ Hm). reflexivity.
Qed.

Lemma documents_removed_only_by_dev_startup_witness :
  doc_exists (Some {[ s2z "repo-1" := mkRow 7 (s2z "repo-1") (s2z "My Repo") (s2z "[]") 1 1 ]})
    (s2z "repo-1")
  /\ doc_exists (run_op (Some {[ s2z "repo-1" := mkRow 7 (s2z "repo-1") (s2z "My Repo") (s2z "[]") 1 1 ]})
                   (OpInit (s2z "release"))) (s2z "repo-1").
Proof.
  assert (Hd : doc_exists (Some {[ s2z "repo-1" := mkRow 7 (s2z "repo-1") (s2z "My Repo") (s2z "[]") 1 1 ]})
                 (s2z "repo-1")).
  { simpl. rewrite lookup_singleton_eq. eauto. }
  split; [exact Hd|].
  apply (proj1 (documents_removed_only_by_dev_startup _ _ (OpInit (s2z "release")) Hd
                  (fun m Hm => eq_sym (f_equal (fun o => match o with OpInit x => x | _ => [] end) Hm)))).
Defined.

(** C10: the swap itself is mutually exclusive with the admission checks
    (no two of them hold githubActionsIPsMutex at once, and each check uses
    one complete range list), but the check never reads the snapshot the
    refresher replaces: it uses the slice captured at startup. After a swap
    from {192.168.0.0/16} to {172.16.0.0/12}, a request that waited on the
    mutex during the swap decides with the startup list {10.0.0.0/8}, which
    is neither the old nor the new snapshot; 172.16.5.4 is in the new one and
    is denied. *)
Theorem reader_decides_with_startup_snapshot :
  let S0 := [s2z "10.0.0.0/8"] in
  let S1 := [s2z "192.168.0.0/16"] in
  let S2 := [s2z "172.16.0.0/12"] in
  let s0 := mkServer S0 S0 [] in
  (exists w, Sched.reachable (Sched.init_world s0 1) w
     /\ githubActionsIPs (Sched.w_srv w) = S2
     /\ Sched.w_seen w = [S0]
     /\ S0 <> S1 /\ S0 <> S2
     /\ isAllowedIP (s2z "172.16.5.4") S0 = Ret false
     /\ isAllowedIP (s2z "172.16.5.4") S2 = Ret true)
  /\ (forall s n w, Sched.reachable (Sched.init_world s n) w ->
        (forall i j p p', Sched.w_qpc w !! i = Some p -> Sched.in_crit_q p = true ->
           Sched.w_qpc w !! j = Some p' -> Sched.in_crit_q p' = true -> i = j)
        /\ (forall i p, Sched.w_qpc w !! i = Some p -> Sched.in_crit_q p = true ->
              Sched.in_crit_r (Sched.w_rpc w) = false)
        /\ Forall (fun l => l = put_filter_ips s) (Sched.w_seen w)).
Proof.
  cbv zeta. split; [|exact SchedFacts.reachable_exclusive].
  set (s0 := mkServer [s2z "10.0.0.0/8"] [s2z "10.0.0.0/8"] []).
  set (w0 := Sched.init_world s0 1).
  pose proof (Sched.reach_step w0 _ _ (Sched.reach_init w0) (Sched.step_r_lock s0 _ _)) as H1.
  pose proof (Sched.reach_step w0 _ _ H1
                (Sched.step_r_fetch s0 _ _ _ (FetchOk [s2z "192.168.0.0/16"]))) as H2.
  pose proof (Sched.reach_step w0 _ _ H2 (Sched.step_r_unlock _ _ _ _)) as H3.
  pose proof (Sched.reach_step w0 _ _ H3 (Sched.step_r_lock _ _ _)) as H4.
  pose proof (Sched.reach_step w0 _ _ H4
                (Sched.step_r_fetch _ _ _ _ (FetchOk [s2z "172.16.0.0/12"]))) as H5.
  pose proof (Sched.reach_step w0 _ _ H5 (Sched.step_r_unlock _ _ _ _)) as H6.
  pose proof (Sched.reach_step w0 _ _ H6 (Sched.step_q_lock _ _ (replicate 1 Sched.QIdle) _ 0 eq_refl)) as H7.
  pose proof (Sched.reach_step w0 _ _ H7 (Sched.step_q_check _ _ _ (<[0%nat := Sched.QCrit]> (replicate 1 Sched.QIdle)) _ 0 eq_refl)) as H8.
  eexists. split; [exact H8|].
  split; [reflexivity|]. split; [reflexivity|].
  split; [discriminate|]. split; [discriminate|].
  split; vm_compute; reflexivity.
Qed.

(** * Further properties of the code *)

(** X1: Scan of what Value wrote gives back the same array, nil included,
    with each code point that is not a Unicode scalar value (an invalid
    UTF-8 sequence) replaced by U+FFFD. *)
Theorem Scan_Value_scrub (a : LockfileContentArray) :
  Json.Scan (Json.Value a) = Some (option_map (map Json.scrub_content) a).
Proof. exact (JsonRoundTrip.Unmarshal_Value_any a). Qed.

(** X2: the text Value writes to the content column has no character
    below U+0020 (so no NUL), no '<', '>' or '&', no U+2028 or U+2029, and
    only Unicode scalar values; so PostgreSQL accepts it as a text
    parameter. *)
Theorem Value_output_safe (a : LockfileContentArray) :
  Forall (fun x => 32 <= x /\ x <> 60 /\ x <> 62 /\ x <> 38 /\ x <> 8232 /\ x <> 8233
                   /\ Json.is_scalar x = true) (Json.Value a)
  /\ pg_text_ok (Json.Value a) = true.
Proof.
  assert (H : Forall (fun x => 32 <= x /\ x <> 60 /\ x <> 62 /\ x <> 38 /\ x <> 8232
                               /\ x <> 8233 /\ Json.is_scalar x = true) (Json.Value a)).
  { destruct a as [[|e es]|].
    - apply safe_of_forallb; reflexivity.
    - cbn [Json.Value].
      apply List.Forall_cons; [exact (List.Forall_inv (safe_of_forallb [91] eq_refl))|].
      apply Forall_app. split; [apply encode_content_elem_safe|].
      apply Forall_app. split; [|apply safe_of_forallb; reflexivity].
      induction es as [|x es IH]; [constructor|]. cbn [flat_map app].
      apply List.Forall_cons; [exact (List.Forall_inv (safe_of_forallb [44] eq_refl))|].
      apply Forall_app. split; [apply encode_content_elem_safe|exact IH].
    - apply safe_of_forallb; reflexivity. }
  split; [exact H|]. unfold pg_text_ok. apply forallb_forall. intros x Hx.
  rewrite List.Forall_forall in H. destruct (H x Hx) as [Hx32 [_ [_ [_ [_ [_ Hs]]]]]].
  rewrite Hs, andb_true_r. apply negb_true_iff, Z.eqb_neq. lia.
Qed.

(** X3: isAllowedIP scans the ranges in order: on a concatenation, a true
    answer or a panic within the first part is final, whatever follows, and
    a false answer goes on with the second part. *)
Theorem isAllowedIP_app `{NL : NetLib} (ip : str) (l1 l2 : list str) :
  isAllowedIP ip (l1 ++ l2) =
  match isAllowedIP ip l1 with
  | Ret false => isAllowedIP ip l2
  | o => o
  end.
Proof.
  unfold isAllowedIP. induction l1 as [|r l1 IH]; simpl; [reflexivity|].
  destruct (ParseCIDR r) as [n|]; [|reflexivity].
  destruct (Contains n (ParseIP ip)); [reflexivity|exact IH].
Qed.

(** X4: a caller address net.ParseIP cannot parse is in no range, so the
    check runs through the whole list: it panics if some range is
    malformed and answers false otherwise. *)
Theorem isAllowedIP_unparsed_client `{NL : NetLib} (ip : str) (l : list str) :
  ParseIP ip = [] ->
  isAllowedIP ip l =
  if forallb (fun r => match ParseCIDR r with Some _ => true | None => false end) l
  then Ret false else Panic.
Proof.
  intros Hip. unfold isAllowedIP. rewrite Hip. induction l as [|r l IH]; simpl; [reflexivity|].
  destruct (ParseCIDR r) as [n|] eqn:E; [|reflexivity].
  rewrite (Contains_nil n (ParseCIDR_wf r n E)). exact IH.
Qed.

Lemma isAllowedIP_unparsed_client_witness :
  ParseIP (NetLib := GoNetV4) (s2z "300.1.2.3") = []
  /\ isAllowedIP (NL := GoNetV4) (s2z "300.1.2.3") [s2z "10.0.0.0/8"; s2z "bad"] = Panic.
Proof.
  assert (H : ParseIP (NetLib := GoNetV4) (s2z "300.1.2.3") = []) by reflexivity.
  split; [exact H|].
  rewrite (isAllowedIP_unparsed_client (NL := GoNetV4) _ _ H). reflexivity.
Defined.

(** X5: with net.ParseCIDR and net.ParseIP on dotted-decimal IPv4 text, a
    range written with the caller's own address and any prefix length from
    0 to 32 admits the caller. *)
Theorem cidr_admits_own_address (ip ms : str) :
  Net.parseIPv4 ip <> None ->
  ms <> [] -> forallb Net.is_digit ms = true -> Net.digits_val 0 ms <= 32 ->
  isAllowedIP (NL := GoNetV4) ip [ip ++ 47 :: ms] = Ret true.
Proof.
  intros Hip Hne Hd Hle. destruct (Net.parseIPv4 ip) as [q|] eqn:Hq; [|congruence].
  unfold isAllowedIP. cbn [allowed_loop].
  change (ParseCIDR (NetLib := GoNetV4) (ip ++ 47 :: ms)) with (Net.ParseCIDR_v4 (ip ++ 47 :: ms)).
  change (ParseIP (NetLib := GoNetV4) ip) with (Net.ParseIP_v4 ip).
  rewrite (NetFacts.ParseCIDR_v4_app ip q ms Hq Hne Hd Hle), (NetFacts.ParseIP_v4_ok ip q Hq).
  destruct (NetFacts.parseIPv4_spec _ _ Hq) as [_ [a [b [c [d [-> _]]]]]].
  unfold Net.CIDRMask4. cbn [combine map].
  rewrite NetFacts.Contains_v4. cbn [Net.masked_eq].
  rewrite <- !Z.land_assoc, !Z.land_diag, !Z.eqb_refl. reflexivity.
Qed.

Lemma cidr_admits_own_address_witness :
  Net.parseIPv4 (s2z "10.1.2.3") <> None
  /\ isAllowedIP (NL := GoNetV4) (s2z "10.1.2.3") [s2z "10.1.2.3/13"] = Ret true.
Proof.
  assert (H : Net.parseIPv4 (s2z "10.1.2.3") <> None) by discriminate.
  split; [exact H|].
  exact (cidr_admits_own_address (s2z "10.1.2.3") (s2z "13") H
           ltac:(discriminate) eq_refl ltac:(vm_compute; discriminate)).
Defined.

(** X6: for IPv4 text, a range whose prefix length is a whole number of
    bytes (0, 8, 16, 24 or 32) admits exactly the callers whose address
    agrees with the range's address on those leading bytes. *)
Theorem cidr_byte_prefix (ip addr ms : str) (q q' : list Z) (k : nat) :
  Net.parseIPv4 ip = Some q -> Net.parseIPv4 addr = Some q' ->
  (k <= 4)%nat -> ms <> [] -> forallb Net.is_digit ms = true ->
  Net.digits_val 0 ms = 8 * Z.of_nat k ->
  isAllowedIP (NL := GoNetV4) ip [addr ++ 47 :: ms]
  = Ret (bool_decide (firstn k q = firstn k q')).
Proof.
  intros Hq Hq' Hk Hne Hd Hms.
  unfold isAllowedIP. cbn [allowed_loop].
  change (ParseCIDR (NetLib := GoNetV4) (addr ++ 47 :: ms))
    with (Net.ParseCIDR_v4 (addr ++ 47 :: ms)).
  change (ParseIP (NetLib := GoNetV4) ip) with (Net.ParseIP_v4 ip).
  rewrite (NetFacts.ParseCIDR_v4_app addr q' ms Hq' Hne Hd ltac:(lia)),
    (NetFacts.ParseIP_v4_ok ip q Hq), Hms.
  destruct (NetFacts.parseIPv4_spec _ _ Hq) as [_ [a [b [c [d [-> [Ha [Hb [Hc Hd']]]]]]]]].
  destruct (NetFacts.parseIPv4_spec _ _ Hq') as [_ [a' [b' [c' [d' [-> [Ha' [Hb' [Hc' Hd2]]]]]]]]].
  destruct k as [|[|[|[|[|k]]]]]; [| | | | |lia];
    [replace (Net.CIDRMask4 (8 * Z.of_nat 0)) with [0; 0; 0; 0] by reflexivity
    |replace (Net.CIDRMask4 (8 * Z.of_nat 1)) with [255; 0; 0; 0] by reflexivity
    |replace (Net.CIDRMask4 (8 * Z.of_nat 2)) with [255; 255; 0; 0] by reflexivity
    |replace (Net.CIDRMask4 (8 * Z.of_nat 3)) with [255; 255; 255; 0] by reflexivity
    |replace (Net.CIDRMask4 (8 * Z.of_nat 4)) with [255; 255; 255; 255] by reflexivity];
    cbn [combine map]; rewrite NetFacts.Contains_v4; cbn [Net.masked_eq firstn];
    rewrite ?Z.land_0_r, ?(NetFacts.land_byte_255 a), ?(NetFacts.land_byte_255 b),
      ?(NetFacts.land_byte_255 c), ?(NetFacts.land_byte_255 d),
      ?(NetFacts.land_byte_255 a'), ?(NetFacts.land_byte_255 b'),
      ?(NetFacts.land_byte_255 c'), ?(NetFacts.land_byte_255 d') by assumption;
    cbn [Z.eqb andb];
    repeat match goal with |- context [Z.eqb ?x ?y] => destruct (Z.eqb_spec x y) end;
    cbn [andb];
    first [ rewrite bool_decide_eq_true_2 by congruence; reflexivity
          | rewrite bool_decide_eq_false_2 by congruence; reflexivity ].
Qed.

Lemma cidr_byte_prefix_witness :
  isAllowedIP (NL := GoNetV4) (s2z "10.1.2.3") [s2z "10.1.0.0/16"] = Ret true
  /\ isAllowedIP (NL := GoNetV4) (s2z "10.2.2.3") [s2z "10.1.0.0/16"] = Ret false.
Proof.
  split.
  - exact (cidr_byte_prefix (s2z "10.1.2.3") (s2z "10.1.0.0") (s2z "16") [10; 1; 2; 3]
             [10; 1; 0; 0] 2 eq_refl eq_refl ltac:(lia) ltac:(discriminate) eq_refl eq_refl).
  - exact (cidr_byte_prefix (s2z "10.2.2.3") (s2z "10.1.0.0") (s2z "16") [10; 2; 2; 3]
             [10; 1; 0; 0] 2 eq_refl eq_refl ltac:(lia) ltac:(discriminate) eq_refl eq_refl).
Defined.

(** X7: the PUT answers 400 exactly when there is no decodable body or the
    body has an empty repositoryName or no posts array, and 200 exactly
    when besides the table exists and repositoryId and repositoryName can
    be stored in their VARCHAR(255) columns (text PostgreSQL accepts, that
    is valid UTF-8 without NUL, whose characters beyond the 255th, if any,
    are spaces); otherwise it answers 500. The
    answer depends on the table only through its existence, never on the
    rows it holds. *)
Theorem Put_response (db : DB) (id : str) (body : option PutLockfileRequest) (now fresh : Z) :
  (fst (PutLockfileHandler db id body now fresh) = PutBadRequest <->
     match body with
     | None => True
     | Some r => req_RepositoryName r = [] \/ req_Posts r = None
     end)
  /\ (fst (PutLockfileHandler db id body now fresh) = PutOK <->
     exists r, body = Some r /\ req_RepositoryName r <> [] /\ req_Posts r <> None
       /\ db <> None /\ varchar255 id <> None /\ varchar255 (req_RepositoryName r) <> None)
  /\ (forall rows1 rows2,
        fst (PutLockfileHandler (Some rows1) id body now fresh)
        = fst (PutLockfileHandler (Some rows2) id body now fresh)).
Proof.
  assert (Hshape : forall db0, fst (PutLockfileHandler db0 id body now fresh) =
    match body with
    | None => PutBadRequest
    | Some r =>
        if negb (Validate.ValidateStruct r) then PutBadRequest
        else match db0, varchar255 id, varchar255 (req_RepositoryName r) with
             | Some _, Some _, Some _ => PutOK
             | _, _, _ => PutServerError
             end
    end).
  { intros db0. unfold PutLockfileHandler. destruct body as [r|]; [|reflexivity].
    destruct (negb _); [reflexivity|]. unfold upsert.
    destruct db0 as [rows|]; [|reflexivity].
    destruct (varchar255 id) as [rid|]; [|reflexivity].
    destruct (varchar255 (req_RepositoryName r)); [|reflexivity].
    destruct (rows !! rid); reflexivity. }
  split; [|split].
  - rewrite Hshape. clear Hshape.
    destruct body as [[name posts]|]; [|tauto]. rewrite ValidateStruct_spec.
    cbn [req_RepositoryName req_Posts].
    destruct name as [|c name]; cbn [length Nat.eqb negb andb].
    + split; [intros _; left; reflexivity|reflexivity].
    + destruct posts as [l|]; cbn [negb].
      * split; [|intros [H|H]; discriminate].
        destruct db, (varchar255 id), (varchar255 (c :: name)); discriminate.
      * split; [intros _; right; reflexivity|reflexivity].
  - rewrite Hshape. clear Hshape. destruct body as [[name posts]|].
    + rewrite ValidateStruct_spec. cbn [req_RepositoryName req_Posts]. split.
      * destruct name as [|c name]; cbn [length Nat.eqb negb andb]; [discriminate|].
        destruct posts as [l|]; cbn [negb]; [|discriminate].
        intros H. exists (mkPutLockfileRequest (c :: name) (Some l)).
        split; [reflexivity|]. split; [discriminate|]. split; [discriminate|].
        cbn [req_RepositoryName].
        destruct db, (varchar255 id), (varchar255 (c :: name)); try discriminate.
        repeat split; discriminate.
      * intros [r [[= <-] [Hn [Hp [Hdb [Hid Hname]]]]]]. cbn [req_RepositoryName req_Posts] in *.
        destruct name as [|c name]; [congruence|]. destruct posts; [|congruence].
        cbn [length Nat.eqb negb andb].
        destruct db; [|congruence]. destruct (varchar255 id); [|congruence].
        destruct (varchar255 (c :: name)); [reflexivity|congruence].
    + split; [discriminate|]. intros [r [Hr _]]. discriminate.
  - intros rows1 rows2. rewrite !Hshape. reflexivity.
Qed.

(** X8: repeating a successful PUT with the same body and the same
    transaction timestamp succeeds and leaves the table as it was. *)
Theorem Put_idempotent (db db1 : DB) (id : str) (r : PutLockfileRequest) (now fresh fresh' : Z) :
  PutLockfileHandler db id (Some r) now fresh = (PutOK, db1) ->
  PutLockfileHandler db1 id (Some r) now fresh' = (PutOK, db1).
Proof.
  unfold PutLockfileHandler. destruct (negb _); [discriminate|].
  unfold upsert. destruct db as [rows|]; [|discriminate].
  destruct (varchar255 id) as [rid|]; [|discriminate].
  destruct (varchar255 (req_RepositoryName r)) as [rname|]; [|discriminate].
  destruct (rows !! rid) as [old|]; intros [= <-];
    rewrite lookup_insert_eq; simpl; rewrite insert_insert_eq; reflexivity.
Qed.

Lemma Put_idempotent_witness :
  PutLockfileHandler (Some ∅) (s2z "repo-1")
    (Some (mkPutLockfileRequest (s2z "My Repo") (Some []))) 1 7
  = (PutOK, snd (PutLockfileHandler (Some ∅) (s2z "repo-1")
                   (Some (mkPutLockfileRequest (s2z "My Repo") (Some []))) 1 7))
  /\ PutLockfileHandler
       (snd (PutLockfileHandler (Some ∅) (s2z "repo-1")
               (Some (mkPutLockfileRequest (s2z "My Repo") (Some []))) 1 7))
       (s2z "repo-1") (Some (mkPutLockfileRequest (s2z "My Repo") (Some []))) 1 8
     = (PutOK, snd (PutLockfileHandler (Some ∅) (s2z "repo-1")
                      (Some (mkPutLockfileRequest (s2z "My Repo") (Some []))) 1 7)).
Proof.
  assert (H : PutLockfileHandler (Some ∅) (s2z "repo-1")
                (Some (mkPutLockfileRequest (s2z "My Repo") (Some []))) 1 7
              = (PutOK, snd (PutLockfileHandler (Some ∅) (s2z "repo-1")
                   (Some (mkPutLockfileRequest (s2z "My Repo") (Some []))) 1 7)))
    by reflexivity.
  split; [exact H|]. exact (Put_idempotent _ _ _ _ 1 7 8 H).
Defined.

(** X9: a PUT leaves the GET of every other stored repositoryId unchanged:
    when the PUT's repositoryId, as assigned to its VARCHAR(255) column, is
    not [id'], GET [id'] answers the same before and after it. *)
Theorem Put_preserves_other_Get (db : DB) (id id' : str)
    (body : option PutLockfileRequest) (now fresh : Z) :
  varchar255 id <> Some id' ->
  GetLockfileHandler (snd (PutLockfileHandler db id body now fresh)) id'
  = GetLockfileHandler db id'.
Proof.
  intros Hne. unfold PutLockfileHandler.
  destruct body as [r|]; [|reflexivity]. destruct (negb _); [reflexivity|].
  unfold upsert. destruct db as [rows|]; [|reflexivity].
  destruct (varchar255 id) as [rid|] eqn:Eid; [|reflexivity].
  destruct (varchar255 (req_RepositoryName r)) as [rname|]; [|reflexivity].
  assert (Hk : rid <> id') by congruence.
  unfold GetLockfileHandler, select_lockfile; simpl.
  destruct (rows !! rid); simpl; rewrite lookup_insert_ne by exact Hk; reflexivity.
Qed.

Lemma Put_preserves_other_Get_witness :
  varchar255 (s2z "repo-1") <> Some (s2z "repo-2")
  /\ GetLockfileHandler
       (snd (PutLockfileHandler (Some ∅) (s2z "repo-1")
               (Some (mkPutLockfileRequest (s2z "My Repo") (Some []))) 1 7))
       (s2z "repo-2")
     = GetLockfileHandler (Some ∅) (s2z "repo-2").
Proof.
  assert (H : varchar255 (s2z "repo-1") <> Some (s2z "repo-2")) by (vm_compute; discriminate).
  split; [exact H|]. exact (Put_preserves_other_Get _ _ _ _ 1 7 H).
Defined.

(** X10: two PUTs whose repositoryIds are stored under different keys
    commute: in either order they leave the same table, and each gets the
    answer it gets when run first. *)
Theorem Put_commute (db : DB) (id1 id2 : str) (b1 b2 : option PutLockfileRequest)
    (n1 n2 f1 f2 : Z) :
  (forall k1 k2, varchar255 id1 = Some k1 -> varchar255 id2 = Some k2 -> k1 <> k2) ->
  snd (PutLockfileHandler (snd (PutLockfileHandler db id1 b1 n1 f1)) id2 b2 n2 f2)
  = snd (PutLockfileHandler (snd (PutLockfileHandler db id2 b2 n2 f2)) id1 b1 n1 f1)
  /\ fst (PutLockfileHandler (snd (PutLockfileHandler db id1 b1 n1 f1)) id2 b2 n2 f2)
     = fst (PutLockfileHandler db id2 b2 n2 f2)
  /\ fst (PutLockfileHandler (snd (PutLockfileHandler db id2 b2 n2 f2)) id1 b1 n1 f1)
     = fst (PutLockfileHandler db id1 b1 n1 f1).
Proof.
  intros Hne. unfold PutLockfileHandler.
  destruct b1 as [r1|]; [|simpl; auto].
  destruct b2 as [r2|]; [|simpl; auto].
  destruct (negb (Validate.ValidateStruct r1)); [simpl; auto|].
  destruct (negb (Validate.ValidateStruct r2)); [simpl; auto|].
  unfold upsert. destruct db as [rows|]; [|simpl; auto].
  destruct (varchar255 id1) as [k1|]; [|simpl; repeat case_match; simplify_eq/=; auto].
  destruct (varchar255 id2) as [k2|]; [|simpl; repeat case_match; simplify_eq/=; auto].
  destruct (varchar255 (req_RepositoryName r1)) as [nm1|];
    [|simpl; repeat case_match; simplify_eq/=; auto].
  destruct (varchar255 (req_RepositoryName r2)) as [nm2|];
    [|simpl; repeat case_match; simplify_eq/=; auto].
  specialize (Hne k1 k2 eq_refl eq_refl).
  destruct (rows !! k1) eqn:E1; destruct (rows !! k2) eqn:E2; simpl;
    rewrite !lookup_insert_ne by congruence; rewrite ?E1, ?E2; simpl;
    (split; [f_equal; apply insert_insert_ne; congruence | split; reflexivity]).
Qed.

Lemma Put_commute_witness :
  (forall k1 k2, varchar255 (s2z "a") = Some k1 -> varchar255 (s2z "b") = Some k2 -> k1 <> k2)
  /\ snd (PutLockfileHandler
            (snd (PutLockfileHandler (Some ∅) (s2z "a")
                    (Some (mkPutLockfileRequest (s2z "A") (Some []))) 1 7))
            (s2z "b") (Some (mkPutLockfileRequest (s2z "B") (Some []))) 2 8)
     = snd (PutLockfileHandler
              (snd (PutLockfileHandler (Some ∅) (s2z "b")
                      (Some (mkPutLockfileRequest (s2z "B") (Some []))) 2 8))
              (s2z "a") (Some (mkPutLockfileRequest (s2z "A") (Some []))) 1 7).
Proof.
  assert (H : forall k1 k2, varchar255 (s2z "a") = Some k1 -> varchar255 (s2z "b") = Some k2 -> k1 <> k2).
  { intros k1 k2 H1 H2. vm_compute in H1, H2. congruence. }
  split; [exact H|]. exact (proj1 (Put_commute _ _ _ _ _ 1 2 7 8 H)).
Defined.

(** X11: once initTables has run, over rows that all hold text Value wrote
    (an empty or missing table is such), no sequence of PUTs, GETs and
    restarts brings a GET to answer 500 except for a repositoryId that
    PostgreSQL refuses as text: one with a NUL character or with invalid
    UTF-8. *)
Theorem Get_error_iff_rejected_text (db0 : DB) (m : str) (ops : list db_op) (id : str) :
  match db0 with
  | Some rows => map_Forall (fun _ r => exists a, row_content r = Json.Value a) rows
  | None => True
  end ->
  GetLockfileHandler (run_ops (initTables db0 m) ops) id = GetServerError
  <-> pg_text_ok id = false.
Proof.
  intros H0.
  pose proof (content_inv_run_ops _ ops (content_inv_initTables db0 m H0)) as Hinv.
  destruct (run_ops (initTables db0 m) ops) as [rows|]; [|contradiction].
  unfold GetLockfileHandler, select_lockfile.
  destruct (pg_text_ok id); [|split; reflexivity].
  split; [|discriminate].
  destruct (rows !! id) as [r|] eqn:E; [|discriminate].
  destruct (Hinv id r E) as [a Ha]. unfold Json.Scan.
  rewrite Ha, JsonRoundTrip.Unmarshal_Value_any. discriminate.
Qed.

Lemma Get_error_iff_rejected_text_witness :
  True /\
  (GetLockfileHandler
     (run_ops (initTables None (s2z "release"))
        [OpPut (s2z "r") (Some (mkPutLockfileRequest (s2z "R") (Some []))) 1 7;
         OpGet (s2z "r")])
     (0 :: s2z "r") = GetServerError
   <-> pg_text_ok (0 :: s2z "r") = false).
Proof. split; [exact I|]. exact (Get_error_iff_rejected_text None _ _ _ I). Defined.
